(** * The XLA executor of TensorFlow Federated

    A shallow embedding of
    [tensorflow_federated/cc/core/impl/executors/xla_executor.cc]:
    the value representation [XLAExecutorValue], the creation path
    ([EmbedTensorValue], [CreateValueAny], [CreateExecutorValue]), the
    materialization path ([MaterializeXLAValue], [Materialize]), the three
    unsupported operations and [GetXLAClient].

    Everything the file calls but does not define (TensorFlow, XLA, the
    tensor codec, the value protocol buffer) is a field of a type class, so
    every statement below holds for every behaviour of those collaborators;
    two small instances at the end of the definitions serve as concrete
    inputs. *)

From stdpp Require Import base list strings.
From Stdlib Require Import ZArith Lia.

Set Warnings "-register-all".

(** ** absl::Status and absl::StatusOr *)

(** The non-OK codes of [absl::StatusCode]. *)
Inductive StatusCode :=
  | kCancelled | kUnknown | kInvalidArgument | kDeadlineExceeded | kNotFound
  | kAlreadyExists | kPermissionDenied | kResourceExhausted
  | kFailedPrecondition | kAborted | kOutOfRange | kUnimplemented | kInternal
  | kUnavailable | kDataLoss | kUnauthenticated.

(** A status is OK, and then carries no message, or an error with a code and
    a message. [tensorflow::Status] has the same shape. *)
Inductive Status :=
  | OkStatus
  | Error (code : StatusCode) (msg : string).

Definition ok (s : Status) : bool :=
  match s with OkStatus => true | Error _ _ => false end.

Definition error_message (s : Status) : string :=
  match s with OkStatus => EmptyString | Error _ msg => msg end.

Definition InvalidArgumentError (msg : string) : Status := Error kInvalidArgument msg.
Definition UnimplementedError (msg : string) : Status := Error kUnimplemented msg.
Definition InternalError (msg : string) : Status := Error kInternal msg.

(** [absl::StatusOr<A>]: a value, or a status that is not OK. *)
Inductive StatusOr (A : Type) :=
  | Ok (a : A)
  | Err (code : StatusCode) (msg : string).
Arguments Ok {A} a.
Arguments Err {A} code msg.

Definition status {A} (r : StatusOr A) : Status :=
  match r with Ok _ => OkStatus | Err code msg => Error code msg end.

(** [absl::StrCat] on two strings. *)
Definition StrCat (a b : string) : string := a +:+ b.

(** Whether [needle] occurs in [hay]: what it means for a message to carry
    a text. *)
Fixpoint contains (needle hay : string) : bool :=
  String.prefix needle hay ||
  match hay with
  | EmptyString => false
  | String _ rest => contains needle rest
  end.

(** ** The types the executor takes from TensorFlow, XLA and the protocol *)

Class Foreign := {
  DataType : Type;          (* tensorflow::DataType *)
  Tensor : Type;            (* tensorflow::Tensor *)
  Literal : Type;           (* xla::Literal, xla::BorrowingLiteral *)
  GlobalData : Type;        (* xla::GlobalData: an allocation in the service *)
  Service : Type;           (* the state of the service behind xla::Client *)
  TensorProto : Type;       (* the payload of the tensor case of v0::Value *)
  ComputationProto : Type;  (* v0::Value.computation *)
  SequenceProto : Type;     (* v0::Value.sequence *)
  FederatedProto : Type;    (* v0::Value.federated *)
}.

(** ** v0::Value *)

(** An element of [v0::Value::Struct]. The executor reads and writes only
    [value]; the protocol also gives an element a [name]. *)
Record Element (V : Type) := mkElement { name : string; value : V }.
Arguments mkElement {V} name value.
Arguments name {V} e.
Arguments value {V} e.

Inductive Value_pb `{Foreign} :=
  | pb_not_set
  | pb_tensor (tensor : TensorProto)
  | pb_struct (element : list (Element Value_pb))
  | pb_computation (computation : ComputationProto)
  | pb_sequence (sequence : SequenceProto)
  | pb_federated (federated : FederatedProto).

Inductive ValueCase :=
  | kTensor | kStruct | kComputation | kSequence | kFederated | VALUE_NOT_SET.

Definition value_case `{Foreign} (value_pb : Value_pb) : ValueCase :=
  match value_pb with
  | pb_not_set => VALUE_NOT_SET
  | pb_tensor _ => kTensor
  | pb_struct _ => kStruct
  | pb_computation _ => kComputation
  | pb_sequence _ => kSequence
  | pb_federated _ => kFederated
  end.

(** ** ServiceTensor and XLAExecutorValue *)

Record ServiceTensor `{Foreign} := mkServiceTensor {
  global_data : GlobalData;
  dtype : DataType;
}.

(** [value_] is an [absl::variant] of a shared [ServiceTensor] and a vector
    of values. A variant that holds neither alternative is the third state,
    the one [type()] answers with [UNIMPLEMENTED]. A [ServiceTensor] is never
    modified, so the sharing of the pointer is not visible and the tensor
    stands for the pointer. *)
Inductive XLAExecutorValue `{Foreign} :=
  | holds_tensor (value_ : ServiceTensor)
  | holds_vector (value_ : list XLAExecutorValue)
  | holds_neither.

Inductive ValueType := TENSOR | STRUCT | UNIMPLEMENTED.

(** The two public constructors; the default constructor is deleted. *)
Definition XLAExecutorValue_of_data `{Foreign}
    (global_data : GlobalData) (dtype : DataType) : XLAExecutorValue :=
  holds_tensor (mkServiceTensor _ global_data dtype).

Definition XLAExecutorValue_of_span `{Foreign}
    (value_vector : list XLAExecutorValue) : XLAExecutorValue :=
  holds_vector value_vector.

Definition type `{Foreign} (v : XLAExecutorValue) : ValueType :=
  match v with
  | holds_tensor _ => TENSOR
  | holds_vector _ => STRUCT
  | holds_neither => UNIMPLEMENTED
  end.

(** [absl::get] on the wrong alternative throws; [None] stands for that. *)
Definition tensor `{Foreign} (v : XLAExecutorValue) : option ServiceTensor :=
  match v with holds_tensor t => Some t | _ => None end.

Definition structure `{Foreign} (v : XLAExecutorValue) : option (list XLAExecutorValue) :=
  match v with holds_vector vs => Some vs | _ => None end.

(** The values the constructors can build, from values built the same way. *)
Inductive Constructed `{Foreign} : XLAExecutorValue -> Prop :=
  | Constructed_data global_data dtype :
      Constructed (XLAExecutorValue_of_data global_data dtype)
  | Constructed_span value_vector :
      Forall Constructed value_vector ->
      Constructed (XLAExecutorValue_of_span value_vector).

(** Every node of a value, the value itself included. *)
Fixpoint nodes `{Foreign} (v : XLAExecutorValue) : list XLAExecutorValue :=
  v :: match v with
       | holds_vector vs => concat (map nodes vs)
       | _ => []
       end.

(** ** The operations of the collaborators *)

Class Collaborators `{Foreign} := {
  (* tensor_serialization.h *)
  DeserializeTensorValue : Value_pb -> StatusOr Tensor;
  SerializeTensorValue : Tensor -> StatusOr TensorProto;
  (* tensorflow *)
  tensor_dtype : Tensor -> DataType;
  HostTensorToBorrowingLiteral : Tensor -> Status * Literal;
  LiteralToHostTensor : Literal -> DataType -> Status * Tensor;
  (* xla::Client *)
  TransferToServer : Literal -> Service -> StatusOr GlobalData * Service;
  Transfer : GlobalData -> Service -> StatusOr Literal;
  (* absl::StrCat on the enumeration *)
  StrCat_ValueType : ValueType -> string;
}.

(** ** The executor *)

Section XLAExecutor.
Context `{Collaborators}.

(** What the operations of one executor act on: the service behind
    [xla_client_], and the units of work handed to [ThreadRun] so far. *)
Record World := mkWorld {
  xla_client_ : Service;
  thread_runs : nat;
}.

(** Modelled from the spec: [ValueFuture], [ThreadRun] and [Wait] of
    threading.h, which is not among the sources. A future is resolved exactly
    once by the unit that computes it and every waiter observes that result,
    so a future stands for its result; [ThreadRun] counts the unit it
    schedules. Units of different calls are not interleaved. *)
Definition ValueFuture : Type := StatusOr XLAExecutorValue.

Definition Wait (value : ValueFuture) : StatusOr XLAExecutorValue := value.

Definition ThreadRun (unit : Service -> StatusOr XLAExecutorValue * Service)
    (w : World) : ValueFuture * World :=
  let '(result, service) := unit (xla_client_ w) in
  (result, mkWorld service (S (thread_runs w))).

(** Modelled from the spec: the macro [TFF_TRY] of status_macros.h, which is
    not among the sources, returns early with the failure of its argument
    and otherwise gives its value; below it is the [Err] branch of each
    match that returns the same code and message. *)

Definition EmbedTensorValue (value_pb : Value_pb) (service : Service)
    : StatusOr XLAExecutorValue * Service :=
  match DeserializeTensorValue value_pb with
  | Err code msg => (Err code msg, service)
  | Ok t =>
      let '(to_literal_status, tensor_literal) := HostTensorToBorrowingLiteral t in
      if negb (ok to_literal_status) then
        (Err kInvalidArgument
           (StrCat "Failed to convert v0::Value proto to XLA literal. Message: "
                   (error_message to_literal_status)), service)
      else
        match TransferToServer tensor_literal service with
        | (Ok data_in_server, service') =>
            (Ok (XLAExecutorValue_of_data data_in_server (tensor_dtype t)), service')
        | (Err _ _, service') =>
            (Err kInvalidArgument
               (StrCat "Failed to transfer XLA literal to local server. Message: "
                       (error_message to_literal_status)), service')
        end
  end.

(** The loop of the struct case, over the recursive call [create]: [values]
    is the vector built so far. *)
Definition CreateValueAny_elements
    (create : Value_pb -> Service -> StatusOr XLAExecutorValue * Service)
    : list (Element Value_pb) -> list XLAExecutorValue -> Service ->
      StatusOr XLAExecutorValue * Service :=
  fix loop element values service :=
    match element with
    | [] => (Ok (XLAExecutorValue_of_span values), service)
    | el :: rest =>
        match create (value el) service with
        | (Ok v, service') => loop rest (values ++ [v]) service'
        | (Err code msg, service') => (Err code msg, service')
        end
    end.

Fixpoint CreateValueAny (value_pb : Value_pb) (service : Service)
    : StatusOr XLAExecutorValue * Service :=
  match value_pb with
  | pb_tensor _ =>
      match EmbedTensorValue value_pb service with
      | (Ok v, service') => (Ok v, service')
      | (Err code msg, service') => (Err code msg, service')
      end
  | pb_struct element =>
      (fix loop element values service :=
         match element with
         | [] => (Ok (XLAExecutorValue_of_span values), service)
         | el :: rest =>
             match CreateValueAny (value el) service with
             | (Ok v, service') => loop rest (values ++ [v]) service'
             | (Err code msg, service') => (Err code msg, service')
             end
         end) element [] service
  | _ => (Err kUnimplemented "Not implemented yet", service)
  end.

Definition CreateExecutorValue (value_pb : Value_pb) (w : World)
    : StatusOr ValueFuture * World :=
  let '(future, w') := ThreadRun (CreateValueAny value_pb) w in
  (Ok future, w').

Definition CreateCall (fn : ValueFuture) (arg : option ValueFuture) (w : World)
    : StatusOr ValueFuture * World :=
  (Err kUnimplemented "Not implemented yet", w).

Definition CreateStruct (members : list ValueFuture) (w : World)
    : StatusOr ValueFuture * World :=
  (Err kUnimplemented "Not implemented yet", w).

Definition CreateSelection (value : ValueFuture) (index : N) (w : World)
    : StatusOr ValueFuture * World :=
  (Err kUnimplemented "Not implemented yet", w).

(** The children [element] created one after the other from [service], all
    of them with success: their values, in order, and the service left. *)
Inductive created_in_order
    : list (Element Value_pb) -> Service -> list XLAExecutorValue -> Service -> Prop :=
  | created_nil service : created_in_order [] service [] service
  | created_cons el rest service v service1 vs service2 :
      CreateValueAny (value el) service = (Ok v, service1) ->
      created_in_order rest service1 vs service2 ->
      created_in_order (el :: rest) service (v :: vs) service2.

(** *** Materialization *)

(** [Materialize] fills one message, the caller's, through pointers into it:
    [MaterializeXLAValue] passes the pointer to a sub-message down and the
    units of work keep theirs until they run. A pointer is the path from the
    root of the message: the indices of the elements to go through. *)
Definition Pointer : Type := list nat.

Fixpoint update_at (p : Pointer) (f : Value_pb -> Value_pb) (root : Value_pb)
    : Value_pb :=
  match p with
  | [] => f root
  | i :: p' =>
      match root with
      | pb_struct element =>
          pb_struct
            (alter (fun el => mkElement (name el) (update_at p' f (value el))) i element)
      | other => other
      end
  end.

Fixpoint deref (p : Pointer) (root : Value_pb) : option Value_pb :=
  match p with
  | [] => Some root
  | i :: p' =>
      match root with
      | pb_struct element =>
          match element !! i with
          | Some el => deref p' (value el)
          | None => None
          end
      | _ => None
      end
  end.

(** The generated accessors of the message: [mutable_struct_] switches the
    message to the struct case unless it is there already, [add_element]
    appends an element with nothing set, whose value sits at the index
    [element_size] had before. *)
Definition mutable_struct_ (value_pb : Value_pb) : Value_pb :=
  match value_pb with
  | pb_struct _ => value_pb
  | _ => pb_struct []
  end.

Definition add_element (value_pb : Value_pb) : Value_pb :=
  match value_pb with
  | pb_struct element => pb_struct (element ++ [mkElement EmptyString pb_not_set])
  | other => other
  end.

Definition element_size (value_pb : option Value_pb) : nat :=
  match value_pb with
  | Some (pb_struct element) => length element
  | _ => 0
  end.

(** The closure given to [add_task]. It captures the value by reference, the
    pointer to its slot and the executor, and reads the tensor of the value
    when it runs; a value is never modified, so the task keeps the tensor
    itself. *)
Record Task := mkTask {
  tensor_in_service : ServiceTensor;
  value_pb : Pointer;
}.

(** The body of the closure up to its last step: the transfer back, the
    conversion and the encoding. *)
Definition transfer_back (t : ServiceTensor) (service : Service)
    : StatusOr TensorProto :=
  match Transfer (global_data t) service with
  | Err _ msg =>
      Err kInternal
        (StrCat "Error transferring tensor from XLA service to host. Message: " msg)
  | Ok result_literal =>
      let '(tensor_conversion, tensor_out) :=
        LiteralToHostTensor result_literal (dtype t) in
      if negb (ok tensor_conversion) then
        Err kInternal
          (StrCat "Error converting XLA literal to tensor. Message: "
                  (error_message tensor_conversion))
      else SerializeTensorValue tensor_out
  end.

(** Modelled from the spec: [SerializeTensorValue] of tensor_serialization.h,
    which is not among the sources, encodes the tensor into the slot of the
    output message it is given, or fails. *)
Definition run_task (task : Task) (service : Service) (root : Value_pb)
    : Status * Value_pb :=
  match transfer_back (tensor_in_service task) service with
  | Ok tensor => (OkStatus, update_at (value_pb task) (fun _ => pb_tensor tensor) root)
  | Err code msg => (Error code msg, root)
  end.

(** Modelled from the spec: [ParallelTasks] of threading.h, which is not
    among the sources: a growable collection of units of work and a join
    that waits for all of them and reports the first failure, if any. The
    units run at the join, in the order of registration; a failure does not
    stop the units after it. *)
Definition ParallelTasks : Type := list Task.

Definition add_task (task : Task) (tasks : ParallelTasks) : ParallelTasks :=
  tasks ++ [task].

Fixpoint WaitAll (tasks : ParallelTasks) (service : Service) (root : Value_pb)
    : Status * Value_pb :=
  match tasks with
  | [] => (OkStatus, root)
  | task :: rest =>
      let '(first, root') := run_task task service root in
      let '(others, root'') := WaitAll rest service root' in
      (if ok first then others else first, root'')
  end.

(** [MaterializeXLAValue] acts on the output message and on the tasks. *)
Definition Materialization : Type := Value_pb * ParallelTasks.

(** The loop of the struct case, over the recursive call [materialize]. *)
Definition MaterializeXLAValue_elements
    (materialize : XLAExecutorValue -> Pointer -> Materialization ->
                   Status * Materialization)
    (value_pb : Pointer)
    : list XLAExecutorValue -> Materialization -> Status * Materialization :=
  fix loop structure m :=
    match structure with
    | [] => (OkStatus, m)
    | el :: rest =>
        let index := element_size (deref value_pb m.1) in
        match materialize el (value_pb ++ [index])
                (update_at value_pb add_element m.1, m.2) with
        | (OkStatus, m') => loop rest m'
        | (Error code msg, m') => (Error code msg, m')
        end
    end.

Fixpoint MaterializeXLAValue (executor_value : XLAExecutorValue)
    (value_pb : Pointer) (m : Materialization) : Status * Materialization :=
  match executor_value with
  | holds_tensor t =>                                      (* case TENSOR *)
      (OkStatus, (m.1, add_task (mkTask t value_pb) m.2))
  | holds_vector structure =>                              (* case STRUCT *)
      (fix loop structure (m : Materialization) :=
         match structure with
         | [] => (OkStatus, m)
         | el :: rest =>
             let index := element_size (deref value_pb m.1) in
             match MaterializeXLAValue el (value_pb ++ [index])
                     (update_at value_pb add_element m.1, m.2) with
             | (OkStatus, m') => loop rest m'
             | (Error code msg, m') => (Error code msg, m')
             end
         end) structure (update_at value_pb mutable_struct_ m.1, m.2)
  | holds_neither =>                                       (* default *)
      (UnimplementedError
         (StrCat
            "Can only materialize tensors and structures of tensors from XLA executor; attempted to materialize a value of type: "
            (StrCat_ValueType (type executor_value))), m)
  end.

(** [Materialize] returns its status and leaves the output message as the
    second component. *)
Definition Materialize (value : ValueFuture) (value_pb : Value_pb)
    (service : Service) : Status * Value_pb :=
  match Wait value with
  | Err code msg => (Error code msg, value_pb)
  | Ok executor_value =>
      match MaterializeXLAValue executor_value [] (value_pb, []) with
      | (Error code msg, (root, _)) => (Error code msg, root)
      | (OkStatus, (root, tasks)) =>
          match WaitAll tasks service root with
          | (Error code msg, root') => (Error code msg, root')
          | (OkStatus, root') => (OkStatus, root')
          end
      end
  end.

(** *** What a materialization writes *)

(** The tensor leaves of a value, from left to right. *)
Fixpoint leaves (v : XLAExecutorValue) : list ServiceTensor :=
  match v with
  | holds_tensor t => [t]
  | holds_vector vs => concat (map leaves vs)
  | holds_neither => []
  end.

(** The message with the shape of [v] and [leaf t] in the place of each
    tensor [t]; its elements have no name. *)
Fixpoint shaped (leaf : ServiceTensor -> Value_pb) (v : XLAExecutorValue)
    : Value_pb :=
  match v with
  | holds_tensor t => leaf t
  | holds_vector vs => pb_struct (map (fun c => mkElement EmptyString (shaped leaf c)) vs)
  | holds_neither => pb_not_set
  end.

(** The message as the walk leaves it: nothing is set at the tensors. *)
Definition outline : XLAExecutorValue -> Value_pb := shaped (fun _ => pb_not_set).

(** The message as the units leave it: the tensor is set where the unit
    succeeded. *)
Definition unit_writes (service : Service) (t : ServiceTensor) : Value_pb :=
  match transfer_back t service with
  | Ok tensor => pb_tensor tensor
  | Err _ _ => pb_not_set
  end.

Definition filled (service : Service) : XLAExecutorValue -> Value_pb :=
  shaped (unit_writes service).

(** A task seen from the slot [p]: its pointer goes through [p] first. *)
Definition under (p : Pointer) (task : Task) : Task :=
  mkTask (tensor_in_service task) (p ++ value_pb task).

(** The tasks of a value, with pointers from the slot of the value. *)
Fixpoint units (v : XLAExecutorValue) : list Task :=
  match v with
  | holds_tensor t => [mkTask t []]
  | holds_vector vs =>
      (fix from (index : nat) (vs : list XLAExecutorValue) : list Task :=
         match vs with
         | [] => []
         | c :: rest => map (under [index]) (units c) ++ from (S index) rest
         end) 0 vs
  | holds_neither => []
  end.

Fixpoint units_from (index : nat) (vs : list XLAExecutorValue) : list Task :=
  match vs with
  | [] => []
  | c :: rest => map (under [index]) (units c) ++ units_from (S index) rest
  end.

(** The first status that is not OK, or OK. *)
Fixpoint first_failure (statuses : list Status) : Status :=
  match statuses with
  | [] => OkStatus
  | first :: rest => if ok first then first_failure rest else first
  end.

Definition unit_status (service : Service) (t : ServiceTensor) : Status :=
  status (transfer_back t service).

(** *** Round trips *)

(** A message of tensors the codec decodes, and of structs of such
    messages. *)
Inductive well_formed : Value_pb -> Prop :=
  | well_formed_tensor tensor t :
      DeserializeTensorValue (pb_tensor tensor) = Ok t ->
      well_formed (pb_tensor tensor)
  | well_formed_struct element :
      Forall (fun el => well_formed (value el)) element ->
      well_formed (pb_struct element).

(** Two messages are equivalent when they hold the same tensors in the same
    structure, element for element in the same order; the names of the
    elements, which a value does not keep, are not compared. *)
Inductive equivalent : Value_pb -> Value_pb -> Prop :=
  | equivalent_tensor tensor : equivalent (pb_tensor tensor) (pb_tensor tensor)
  | equivalent_struct element element' :
      Forall2 (fun el el' => equivalent (value el) (value el')) element element' ->
      equivalent (pb_struct element) (pb_struct element').

(** The message without the names of its elements. *)
Fixpoint unnamed (value_pb : Value_pb) : Value_pb :=
  match value_pb with
  | pb_struct element =>
      pb_struct (map (fun el => mkElement EmptyString (unnamed (value el))) element)
  | other => other
  end.

(** The collaborators succeed and round-trip: the codec encodes a decoded
    tensor back to the message it came from; a tensor converts to a literal
    that converts back to it; the service takes every literal and gives it
    back; and what the service gives back for an allocation is not changed
    by a later transfer to it. *)
Record faithful : Prop := {
  codec_round_trips : forall tensor t,
    DeserializeTensorValue (pb_tensor tensor) = Ok t ->
    SerializeTensorValue t = Ok tensor;
  literal_round_trips : forall t, exists literal,
    HostTensorToBorrowingLiteral t = (OkStatus, literal) /\
    LiteralToHostTensor literal (tensor_dtype t) = (OkStatus, t);
  transfer_round_trips : forall literal service, exists data service',
    TransferToServer literal service = (Ok data, service') /\
    Transfer data service' = Ok literal;
  allocations_persist : forall literal service r service' data literal0,
    TransferToServer literal service = (r, service') ->
    Transfer data service = Ok literal0 ->
    Transfer data service' = Ok literal0;
}.

(** What the round trip needs of the creation of [value_pb], from any state
    of the service: it succeeds, every leaf of the value can be read back
    from the service it leaves, and reading them back gives the message
    without its names. *)
Definition created_faithfully (value_pb : Value_pb) : Prop :=
  forall service, exists v service',
    CreateValueAny value_pb service = (Ok v, service') /\
    Forall (fun t => ok (unit_status service' t) = true) (leaves v) /\
    filled service' v = unnamed value_pb.

(** *** What a creation reads and transfers *)

(** The tensors of a message, from left to right. *)
Fixpoint tensors_of (value_pb : Value_pb) : list TensorProto :=
  match value_pb with
  | pb_tensor tensor => [tensor]
  | pb_struct element => concat (map (fun el => tensors_of (value el)) element)
  | _ => []
  end.

(** The structure of a message alone: nothing set at the tensors, no names. *)
Fixpoint blank (value_pb : Value_pb) : Value_pb :=
  match value_pb with
  | pb_struct element =>
      pb_struct (map (fun el => mkElement EmptyString (blank (value el))) element)
  | _ => pb_not_set
  end.

(** The literal [EmbedTensorValue] hands to [TransferToServer] for a tensor
    message, when the decoding and the conversion succeed. *)
Definition literal_of (tensor : TensorProto) : option Literal :=
  match DeserializeTensorValue (pb_tensor tensor) with
  | Ok t =>
      let '(to_literal_status, tensor_literal) := HostTensorToBorrowingLiteral t in
      if ok to_literal_status then Some tensor_literal else None
  | Err _ _ => None
  end.

(** The service after the literals of [tensors] were transferred to it, one
    after the other. *)
Definition transferred (service : Service) (tensors : list TensorProto) : Service :=
  fold_left
    (fun service tensor =>
       match literal_of tensor with
       | Some tensor_literal => snd (TransferToServer tensor_literal service)
       | None => service
       end)
    tensors service.

(** Two pointers that part ways at some index: neither slot lies in the
    other. *)
Fixpoint apart (p q : Pointer) : bool :=
  match p, q with
  | i :: p', j :: q' => if Nat.eqb i j then apart p' q' else true
  | _, _ => false
  end.

(** *** What the walk and the creation are shown to do *)

(** What a leaf of the value has to do with the tensor it was made of. *)
Definition leaf_of (leaf : ServiceTensor) (tensor : TensorProto) : Prop :=
  exists t, DeserializeTensorValue (pb_tensor tensor) = Ok t /\
            dtype leaf = tensor_dtype t.

(** What a successful creation of [value_pb] says of the message, of the
    value and of the service. *)
Definition creation_facts (value_pb : Value_pb) : Prop :=
  forall service v service',
    CreateValueAny value_pb service = (Ok v, service') ->
    well_formed value_pb /\
    outline v = blank value_pb /\
    Forall2 leaf_of (leaves v) (tensors_of value_pb) /\
    service' = transferred service (tensors_of value_pb).

(** The failure of the default case of [MaterializeXLAValue]. *)
Definition unimplemented_type_failure : Status :=
  UnimplementedError
    (StrCat
       "Can only materialize tensors and structures of tensors from XLA executor; attempted to materialize a value of type: "
       (StrCat_ValueType UNIMPLEMENTED)).

(** What a walk does, from any slot, output message and tasks: it updates
    the message at the slot, appends tasks that write under the slot, and
    succeeds on the values of the constructors, with one task per leaf. *)
Definition walk_facts (v : XLAExecutorValue) : Prop :=
  forall p root tasks, exists st f ts,
    MaterializeXLAValue v p (root, tasks) = (st, (update_at p f root, tasks ++ ts)) /\
    Forall (fun task => exists q, value_pb task = p ++ q) ts /\
    (st = OkStatus <-> Constructed v) /\
    (st = OkStatus \/ st = unimplemented_type_failure) /\
    (st = OkStatus -> map tensor_in_service ts = leaves v).

End XLAExecutor.

(** ** Acquiring the client *)

Section GetXLAClient.
Variables Platform Client : Type.
(* xla::se::MultiPlatformManager::PlatformWithName *)
Variable PlatformWithName : string -> StatusOr Platform.
(* xla::ClientLibrary::GetOrCreateLocalClient, on options set to the platform *)
Variable GetOrCreateLocalClient : Platform -> StatusOr Client.

Definition GetXLAClient (platform_name : string) : StatusOr Client :=
  match PlatformWithName platform_name with
  | Err _ msg =>
      Err kInternal
        (StrCat "Failed to find specified platform "
           (StrCat platform_name
              (StrCat " in MultiPlatformManager. You may be missing a build dependency to register the platform. Message: "
                      msg)))
  | Ok platform =>
      match GetOrCreateLocalClient platform with
      | Err _ msg =>
          Err kInternal (StrCat "Failed to construct XLA client. Message: " msg)
      | Ok constructed_client => Ok constructed_client
      end
  end.

End GetXLAClient.

(** ** Creating the executor *)

Module Factory.
Section CreateXLAExecutor.
Variables Platform Client : Type.
Variable PlatformWithName : string -> StatusOr Platform.
Variable GetOrCreateLocalClient : Platform -> StatusOr Client.

(** The members of the class [XLAExecutor]. The constructor takes the client
    and nothing else, so [platform_name_] is the empty string it is
    default-constructed to. *)
Record XLAExecutor := {
  xla_client_ : Client;
  platform_name_ : string;
}.

Definition make_XLAExecutor (xla_client : Client) : XLAExecutor :=
  {| xla_client_ := xla_client; platform_name_ := EmptyString |}.

Definition CreateXLAExecutor (platform_name : string) : StatusOr XLAExecutor :=
  match GetXLAClient _ _ PlatformWithName GetOrCreateLocalClient platform_name with
  | Err code msg => Err code msg
  | Ok client => Ok (make_XLAExecutor client)
  end.

End CreateXLAExecutor.
End Factory.

(** ** Two small services, as concrete inputs *)

Module Toy.

(** A tensor is an element type and its numbers; the service keeps the
    literals it was given in a list and hands out their positions. *)
#[export] Instance types : Foreign := {|
  DataType := nat;
  Tensor := nat * list Z;
  Literal := list Z;
  GlobalData := nat;
  Service := list (list Z);
  TensorProto := nat * list Z;
  ComputationProto := unit;
  SequenceProto := unit;
  FederatedProto := unit;
|}.

(** Messages and values of this service. *)
Definition tensor_pb (dtype : nat) (numbers : list Z) : @Value_pb types :=
  @pb_tensor types (dtype, numbers).

Definition tensor_value (data dtype : nat) : @XLAExecutorValue types :=
  holds_tensor (mkServiceTensor types data dtype).

(** A struct of two tensors whose elements have names, and the value the
    services make of it. *)
Definition two_tensors : @Value_pb types :=
  pb_struct [mkElement "a" (tensor_pb 3 [1; 2; 3]%Z);
             mkElement "b" (tensor_pb 1 [4]%Z)].

Definition two_tensors_value : @XLAExecutorValue types :=
  holds_vector [tensor_value 0 3; tensor_value 1 1].

(** A struct whose second tensor is too large for the faulty service. *)
Definition large_second : @Value_pb types :=
  pb_struct [mkElement "a" (tensor_pb 3 [1; 2; 3]%Z);
             mkElement "b" (tensor_pb 1 [4; 5; 6; 7]%Z);
             mkElement "c" (tensor_pb 1 [8]%Z)].

(** The service before any allocation, and after the two of [two_tensors]. *)
Definition fresh : @World types := @mkWorld types [] 0.

Definition allocated : @Service types := [[1; 2; 3]; [4]]%Z.

(** A computation message. *)
Definition computation_pb : @Value_pb types := @pb_computation types tt.

Definition render (t : ValueType) : string :=
  match t with TENSOR => "0" | STRUCT => "1" | UNIMPLEMENTED => "2" end.

(** The service takes the literals [admits] accepts and gives back the
    allocations [readable] accepts. *)
Definition service (admits : list Z -> bool) (readable : nat -> bool)
    : Collaborators := {|
  DeserializeTensorValue := fun value_pb =>
    match value_pb with
    | pb_tensor t => Ok t
    | _ => Err kInvalidArgument "not a tensor"
    end;
  SerializeTensorValue := fun t => Ok t;
  tensor_dtype := fun t => fst t;
  HostTensorToBorrowingLiteral := fun t => (OkStatus, snd t);
  LiteralToHostTensor := fun literal dtype => (OkStatus, (dtype, literal));
  TransferToServer := fun (literal : list Z) (allocations : list (list Z)) =>
    if admits literal
    then (Ok (length allocations), allocations ++ [literal])
    else (Err kResourceExhausted "out of device memory", allocations);
  Transfer := fun (data : nat) (allocations : list (list Z)) =>
    if readable data
    then match allocations !! data with
         | Some literal => Ok literal
         | None => Err kNotFound "no such allocation"
         end
    else Err kUnavailable "device lost";
  StrCat_ValueType := render;
|}.

(** A service that never fails. *)
Definition reliable : Collaborators := service (fun _ => true) (fun _ => true).

(** A service that takes literals of at most three numbers and has lost its
    allocation 1. *)
Definition faulty : Collaborators :=
  service (fun literal => length literal <=? 3) (fun data => negb (data =? 1)).

(** A registry that knows the platform Host and cannot construct its
    client. *)
Definition PlatformWithName (platform_name : string) : StatusOr unit :=
  if String.eqb platform_name "Host" then Ok tt
  else Err kNotFound "platform not registered".

Definition GetOrCreateLocalClient (platform : unit) : StatusOr unit :=
  Err kUnavailable "no devices".

End Toy.

(** ** More concrete inputs *)

Module Samples.
Import Toy.

(** [two_tensors] under other names. *)
Definition renamed_two_tensors : @Value_pb types :=
  pb_struct [mkElement "x" (tensor_pb 3 [1; 2; 3]%Z);
             mkElement "y" (tensor_pb 1 [4]%Z)].

(** The output message and the tasks after the walk of [two_tensors_value]
    from a fresh message. *)
Definition walked_two_tensors : @Value_pb types :=
  pb_struct [mkElement "" pb_not_set; mkElement "" pb_not_set].

Definition first_leaf : @ServiceTensor types := mkServiceTensor types 0 3.
Definition second_leaf : @ServiceTensor types := mkServiceTensor types 1 1.

Definition two_tasks : list (@Task types) :=
  [@mkTask types first_leaf [0]; @mkTask types second_leaf [1]].

(** An output message that holds an element already. *)
Definition kept : list (Element (@Value_pb types)) :=
  [mkElement "kept" (tensor_pb 7 [9]%Z)].

(** The service before any transfer. *)
Definition empty : @Service types := [].

End Samples.

(** * Properties *)

(** ** Strings *)

Lemma append_cons (ch : Ascii.ascii) (a b : string) :
  String ch a +:+ b = String ch (a +:+ b).
Proof. reflexivity. Qed.

Lemma append_assoc (a b c : string) : (a +:+ b) +:+ c = a +:+ b +:+ c.
Proof. induction a as [|ch a IH]; [done|]. by rewrite !append_cons, IH. Qed.

Lemma prefix_append (s t : string) : String.prefix s (s +:+ t) = true.
Proof.
  induction s as [|a s IH]; simpl.
  - by destruct t.
  - destruct (Ascii.ascii_dec a a); [exact IH | congruence].
Qed.

Lemma contains_prefix (needle hay : string) :
  String.prefix needle hay = true -> contains needle hay = true.
Proof. destruct hay; simpl; by intros ->. Qed.

Lemma contains_append (needle before after : string) :
  contains needle (before +:+ needle +:+ after) = true.
Proof.
  induction before as [|a before IH].
  - change (contains needle (needle +:+ after) = true).
    apply contains_prefix, prefix_append.
  - change (contains needle (String a (before +:+ needle +:+ after)) = true).
    simpl. rewrite IH. apply orb_true_r.
Qed.

Lemma contains_suffix (needle before : string) :
  contains needle (before +:+ needle) = true.
Proof.
  pose proof (contains_append needle before EmptyString) as Hc.
  replace (needle +:+ EmptyString) with needle in Hc; [done|].
  clear. induction needle as [|a n IH]; [done|].
  change (String a n = String a (n +:+ EmptyString)). congruence.
Qed.

Section Properties.
Context `{Collaborators}.

(** ** The unsupported operations *)

(** C4: [CreateCall], [CreateStruct] and [CreateSelection] return an
    unimplemented failure on every input and leave the world as it was: no
    unit of work is handed to [ThreadRun] and the service is in the state it
    was in. *)
Theorem unsupported_operations_fail
    (fn value : ValueFuture) (arg : option ValueFuture)
    (members : list ValueFuture) (index : N) (w : World) :
  CreateCall fn arg w = (Err kUnimplemented "Not implemented yet", w) /\
  CreateStruct members w = (Err kUnimplemented "Not implemented yet", w) /\
  CreateSelection value index w = (Err kUnimplemented "Not implemented yet", w).
Proof. repeat split. Qed.

(** ** Creation *)

Lemma CreateValueAny_struct (element : list (Element Value_pb)) (service : Service) :
  CreateValueAny (pb_struct element) service
  = CreateValueAny_elements CreateValueAny element [] service.
Proof. reflexivity. Qed.

Lemma CreateValueAny_tensor (t : TensorProto) (service : Service) :
  CreateValueAny (pb_tensor t) service = EmbedTensorValue (pb_tensor t) service.
Proof. simpl. by destruct (EmbedTensorValue _ _) as [[?|??] ?]. Qed.

Lemma CreateValueAny_other (value_pb : Value_pb) (service : Service) :
  value_case value_pb <> kTensor -> value_case value_pb <> kStruct ->
  CreateValueAny value_pb service = (Err kUnimplemented "Not implemented yet", service).
Proof. by destruct value_pb. Qed.

(** C6: a message that is neither a tensor nor a struct makes the unit of
    [CreateExecutorValue] fail with an unimplemented failure, and the service
    is left in the state it was in: nothing was allocated. *)
Theorem other_shapes_unimplemented (value_pb : Value_pb) (w : World) :
  value_case value_pb <> kTensor -> value_case value_pb <> kStruct ->
  CreateValueAny value_pb (xla_client_ w)
    = (Err kUnimplemented "Not implemented yet", xla_client_ w) /\
  exists w',
    CreateExecutorValue value_pb w
      = (Ok (Err kUnimplemented "Not implemented yet"), w') /\
    xla_client_ w' = xla_client_ w.
Proof.
  intros Ht Hs. split; [by apply CreateValueAny_other|].
  unfold CreateExecutorValue, ThreadRun.
  rewrite CreateValueAny_other by done. by eexists.
Qed.

Lemma elements_all_created rest : forall acc service vs service',
  created_in_order rest service vs service' ->
  CreateValueAny_elements CreateValueAny rest acc service
  = (Ok (holds_vector (acc ++ vs)), service').
Proof.
  induction rest as [|el rest IH]; intros acc service vs service' Hc;
    inversion Hc as [|? ? ? v service1 vs' ? Hel Hrest]; subst; simpl.
  - by rewrite app_nil_r.
  - rewrite Hel. rewrite (IH _ _ _ _ Hrest). by rewrite <- app_assoc.
Qed.

Lemma elements_first_failure pre : forall acc service vs service1 el post code msg service2,
  created_in_order pre service vs service1 ->
  CreateValueAny (value el) service1 = (Err code msg, service2) ->
  CreateValueAny_elements CreateValueAny (pre ++ el :: post) acc service
  = (Err code msg, service2).
Proof.
  induction pre as [|e pre IH]; intros acc service vs service1 el post code msg service2 Hc Hf;
    inversion Hc as [|? ? ? v service' vs' ? Hel Hrest]; subst; simpl.
  - by rewrite Hf.
  - rewrite Hel. by eapply IH.
Qed.

Lemma elements_created_inv rest : forall acc service v service',
  CreateValueAny_elements CreateValueAny rest acc service = (Ok v, service') ->
  exists vs, v = holds_vector (acc ++ vs) /\ created_in_order rest service vs service'.
Proof.
  induction rest as [|el rest IH]; intros acc service v service' Hl; simpl in Hl.
  - inversion Hl; subst. exists []. rewrite app_nil_r. split; [done | constructor].
  - destruct (CreateValueAny (value el) service) as [[c|code msg] service1] eqn:E;
      [|discriminate].
    destruct (IH _ _ _ _ Hl) as (vs & -> & Hc).
    exists (c :: vs). rewrite <- app_assoc. split; [done|].
    by econstructor.
Qed.

Lemma created_in_order_length element : forall service vs service',
  created_in_order element service vs service' -> length vs = length element.
Proof.
  induction element; intros service vs service' Hc; inversion Hc; subst; simpl;
    [done | f_equal; eauto].
Qed.

(** C2: on a struct message [CreateValueAny] creates the children in message
    order, each from the service the one before left. When all succeed the
    result holds all of them, in order; when the children before one
    succeed and that one fails, the result is that child's failure; and a
    value that is returned holds one value per child, never a prefix. *)
Theorem struct_children_in_order_all_or_nothing
    (element : list (Element Value_pb)) (service : Service) :
  (forall vs service',
     created_in_order element service vs service' ->
     CreateValueAny (pb_struct element) service = (Ok (holds_vector vs), service')) /\
  (forall pre el post vs service1 code msg service2,
     element = pre ++ el :: post ->
     created_in_order pre service vs service1 ->
     CreateValueAny (value el) service1 = (Err code msg, service2) ->
     CreateValueAny (pb_struct element) service = (Err code msg, service2)) /\
  (forall v service',
     CreateValueAny (pb_struct element) service = (Ok v, service') ->
     exists vs, v = holds_vector vs /\ length vs = length element /\
                created_in_order element service vs service').
Proof.
  rewrite CreateValueAny_struct. repeat split.
  - intros vs service' Hc. by rewrite (elements_all_created _ [] _ _ _ Hc).
  - intros pre el post vs service1 code msg service2 -> Hc Hf.
    by eapply elements_first_failure.
  - intros v service' Hv.
    destruct (elements_created_inv _ _ _ _ _ Hv) as (vs & -> & Hc).
    exists vs. repeat split; [|done]. by eapply created_in_order_length.
Qed.

(** ** Induction on messages and on values *)

Lemma Value_pb_nested_ind (P : Value_pb -> Prop) :
  P pb_not_set ->
  (forall t, P (pb_tensor t)) ->
  (forall element, Forall (fun el => P (value el)) element -> P (pb_struct element)) ->
  (forall c, P (pb_computation c)) ->
  (forall s, P (pb_sequence s)) ->
  (forall f, P (pb_federated f)) ->
  forall value_pb, P value_pb.
Proof.
  intros Hn Ht Hs Hc Hq Hf. fix IH 1.
  intros [|t|element|c|s|f]; [exact Hn | apply Ht | | apply Hc | apply Hq | apply Hf].
  apply Hs. induction element as [|[n v] rest IHr]; constructor; [apply IH | exact IHr].
Qed.

Lemma XLAExecutorValue_nested_ind (P : XLAExecutorValue -> Prop) :
  (forall t, P (holds_tensor t)) ->
  (forall vs, Forall P vs -> P (holds_vector vs)) ->
  P holds_neither ->
  forall v, P v.
Proof.
  intros Ht Hv Hn. fix IH 1.
  intros [t|vs|]; [apply Ht | | exact Hn].
  apply Hv. induction vs as [|v rest IHr]; constructor; [apply IH | exact IHr].
Qed.

(** ** What a value can hold *)

Lemma created_in_order_Forall (P : XLAExecutorValue -> Prop) element :
  Forall (fun el => forall service v service',
            CreateValueAny (value el) service = (Ok v, service') -> P v) element ->
  forall service vs service',
    created_in_order element service vs service' -> Forall P vs.
Proof.
  induction 1 as [|el rest Hel _ IH]; intros service vs service' Hc;
    inversion Hc as [|? ? ? v service1 vs' ? Hv Hrest]; subst; constructor; eauto.
Qed.

Lemma EmbedTensorValue_Ok value_pb service v service' :
  EmbedTensorValue value_pb service = (Ok v, service') ->
  exists data t, v = XLAExecutorValue_of_data data (tensor_dtype t).
Proof.
  unfold EmbedTensorValue.
  destruct (DeserializeTensorValue value_pb) as [t|]; [|discriminate].
  destruct (HostTensorToBorrowingLiteral t) as [st lit].
  destruct (negb (ok st)); [discriminate|].
  destruct (TransferToServer lit service) as [[data|] ?]; [|discriminate].
  intros [= <- <-]. eauto.
Qed.

Lemma CreateValueAny_Constructed value_pb : forall service v service',
  CreateValueAny value_pb service = (Ok v, service') -> Constructed v.
Proof.
  induction value_pb as [|t|element IH|c|s|f] using Value_pb_nested_ind;
    intros service v service' Hv; try discriminate.
  - rewrite CreateValueAny_tensor in Hv.
    destruct (EmbedTensorValue_Ok _ _ _ _ Hv) as (data & t' & ->). constructor.
  - rewrite CreateValueAny_struct in Hv.
    destruct (elements_created_inv _ _ _ _ _ Hv) as (vs & -> & Hc).
    apply Constructed_span. by eapply created_in_order_Forall.
Qed.

Lemma Constructed_nodes v :
  Constructed v -> Forall (fun n => type n = TENSOR \/ type n = STRUCT) (nodes v).
Proof.
  induction v as [t|vs IH|] using XLAExecutorValue_nested_ind; intros Hc.
  - repeat constructor.
  - constructor; [by right|].
    assert (Hvs : Forall Constructed vs) by (by inversion Hc).
    clear Hc. induction IH as [|c rest Hhead _ IHrest]; simpl; [constructor|].
    inversion Hvs; subst. apply Forall_app. split; auto.
  - inversion Hc.
Qed.

(** C8: a value built by the constructors, or one a future of
    [CreateExecutorValue] resolves to, has the type [TENSOR] or [STRUCT] at
    every node; the other operations return no value at all. *)
Theorem constructed_values_are_tensor_or_struct (v : XLAExecutorValue) :
  (Constructed v \/
   exists value_pb w w', CreateExecutorValue value_pb w = (Ok (Ok v), w')) ->
  Forall (fun n => type n = TENSOR \/ type n = STRUCT) (nodes v).
Proof.
  intros [Hc|(value_pb & w & w' & Hv)]; [by apply Constructed_nodes|].
  apply Constructed_nodes.
  unfold CreateExecutorValue, ThreadRun in Hv.
  destruct (CreateValueAny value_pb (xla_client_ w)) as [r service] eqn:E.
  injection Hv as -> _. by eapply CreateValueAny_Constructed.
Qed.

(** ** The failures of [EmbedTensorValue] *)

Lemma EmbedTensorValue_transfer_failure value_pb service t literal code msg service' :
  DeserializeTensorValue value_pb = Ok t ->
  HostTensorToBorrowingLiteral t = (OkStatus, literal) ->
  TransferToServer literal service = (Err code msg, service') ->
  EmbedTensorValue value_pb service
  = (Err kInvalidArgument "Failed to transfer XLA literal to local server. Message: ",
     service').
Proof.
  intros Hd Hl Ht. unfold EmbedTensorValue. by rewrite Hd, Hl, Ht.
Qed.

(** ** The default case of [MaterializeXLAValue] *)

(** C7, as the code has it: a value whose type is [UNIMPLEMENTED] makes
    [MaterializeXLAValue] return an unimplemented failure, whose message ends
    with the rendering of that type, and register nothing. *)
Theorem materialize_unimplemented_type
    (v : XLAExecutorValue) (value_pb : Pointer) (m : Materialization) :
  type v = UNIMPLEMENTED ->
  MaterializeXLAValue v value_pb m
  = (UnimplementedError
       (StrCat
          "Can only materialize tensors and structures of tensors from XLA executor; attempted to materialize a value of type: "
          (StrCat_ValueType UNIMPLEMENTED)), m).
Proof. by destruct v. Qed.

(** ** Pointers into the output message *)

Lemma update_at_ext p : forall f g root,
  (forall x, f x = g x) -> update_at p f root = update_at p g root.
Proof.
  induction p as [|i p IH]; intros f g root Hfg; simpl; [apply Hfg|].
  destruct root; try done. f_equal.
  apply list_alter_ext; [|done]. intros el _. f_equal. by apply IH.
Qed.

Lemma update_at_app p : forall q f root,
  update_at (p ++ q) f root = update_at p (update_at q f) root.
Proof.
  induction p as [|i p IH]; intros q f root; simpl; [done|].
  destruct root; try done. f_equal.
  apply list_alter_ext; [|done]. intros el _. f_equal. apply IH.
Qed.

Lemma update_at_twice p : forall f g root,
  update_at p f (update_at p g root) = update_at p (f ∘ g) root.
Proof.
  induction p as [|i p IH]; intros f g root; simpl; [done|].
  destruct root; try done. simpl. f_equal.
  rewrite list_alter_alter_eq.
  apply list_alter_ext; [|done]. intros el _. simpl. f_equal. apply IH.
Qed.

Lemma update_at_overwrite p f x root :
  update_at p (fun _ => x) (update_at p f root) = update_at p (fun _ => x) root.
Proof. rewrite update_at_twice. by apply update_at_ext. Qed.

Lemma deref_update_at p : forall f root x,
  deref p root = Some x -> deref p (update_at p f root) = Some (f x).
Proof.
  induction p as [|i p IH]; intros f root x; simpl; [by intros [= ->]|].
  destruct root as [| |element| | |]; try done.
  rewrite list_lookup_alter_eq.
  destruct (element !! i) as [el|]; [|done]. simpl. apply IH.
Qed.

Lemma update_at_same p : forall root x,
  deref p root = Some x -> update_at p (fun _ => x) root = root.
Proof.
  induction p as [|i p IH]; intros root x; simpl; [by intros [= ->]|].
  destruct root as [| |element| | |]; try done.
  destruct (element !! i) as [el|] eqn:E; [|done]. intros Hd. f_equal.
  rewrite <- (list_alter_id id element i) at 2 by done.
  apply list_alter_ext; [|done]. intros el' Hel'. 
  assert (el' = el) as -> by congruence.
  rewrite (IH _ _ Hd). by destruct el.
Qed.

Lemma deref_app p : forall q root x,
  deref p root = Some x -> deref (p ++ q) root = deref q x.
Proof.
  induction p as [|i p IH]; intros q root x; simpl; [by intros [= ->]|].
  destruct root as [| |element| | |]; try done.
  destruct (element !! i) as [el|]; [|done]. apply IH.
Qed.

Lemma MaterializeXLAValue_struct vs value_pb m :
  MaterializeXLAValue (holds_vector vs) value_pb m
  = MaterializeXLAValue_elements MaterializeXLAValue value_pb vs
      (update_at value_pb mutable_struct_ m.1, m.2).
Proof. reflexivity. Qed.

Lemma units_struct vs : units (holds_vector vs) = units_from 0 vs.
Proof.
  simpl. generalize 0. induction vs as [|c rest IH]; intros i; simpl; [done|].
  by rewrite IH.
Qed.

Lemma under_app p q task : under (p ++ q) task = under p (under q task).
Proof. unfold under. simpl. by rewrite app_assoc. Qed.

Lemma under_nil task : under [] task = task.
Proof. by destruct task. Qed.

Lemma walk_elements_fresh p rest : 
  Forall (fun c => forall p root tasks,
            deref p root = Some pb_not_set ->
            MaterializeXLAValue c p (root, tasks)
            = (OkStatus, (update_at p (fun _ => outline c) root,
                          tasks ++ map (under p) (units c)))) rest ->
  forall before root tasks,
    deref p root = Some (pb_struct before) ->
    MaterializeXLAValue_elements MaterializeXLAValue p rest (root, tasks)
    = (OkStatus,
       (update_at p (fun _ => pb_struct
                       (before ++ map (fun c => mkElement EmptyString (outline c)) rest)) root,
        tasks ++ map (under p) (units_from (length before) rest))).
Proof.
  induction 1 as [|c rest Hc _ IH]; intros before root tasks Hd; simpl.
  - rewrite !app_nil_r. by rewrite update_at_same.
  - rewrite Hd. simpl.
    assert (Hd' : deref p (update_at p add_element root)
                  = Some (pb_struct (before ++ [mkElement EmptyString pb_not_set])))
      by (by rewrite (deref_update_at _ _ _ _ Hd)).
    rewrite Hc; last first.
    { rewrite (deref_app _ _ _ _ Hd'). simpl.
      by rewrite list_lookup_middle. }
    rewrite update_at_app, update_at_twice.
    rewrite (IH (before ++ [mkElement EmptyString (outline c)])); last first.
    { rewrite (deref_update_at _ _ _ _ Hd). simpl. f_equal. f_equal.
      rewrite <- (Nat.add_0_r (length before)). by rewrite alter_app_r. }
    rewrite update_at_overwrite. f_equal. f_equal.
    + by rewrite <- app_assoc.
    + rewrite length_app. simpl. rewrite Nat.add_1_r.
      rewrite <- app_assoc. f_equal. rewrite map_app. f_equal.
      rewrite map_map. apply map_ext. intros task. apply under_app.
Qed.

Lemma walk_fresh v :
  Constructed v ->
  forall p root tasks,
    deref p root = Some pb_not_set ->
    MaterializeXLAValue v p (root, tasks)
    = (OkStatus, (update_at p (fun _ => outline v) root,
                  tasks ++ map (under p) (units v))).
Proof.
  induction v as [t|vs IH|] using XLAExecutorValue_nested_ind; intros Hc.
  - intros p root tasks Hd. simpl. unfold add_task, under, outline. simpl.
    by rewrite app_nil_r, (update_at_same _ _ _ Hd).
  - assert (Hvs : Forall Constructed vs) by (by inversion Hc).
    intros p root tasks Hd. rewrite MaterializeXLAValue_struct, units_struct.
    cbn [fst snd].
    rewrite (walk_elements_fresh p vs) with (before := []).
    + by rewrite update_at_overwrite.
    + clear -IH Hvs. induction IH; inversion Hvs; subst; constructor; auto.
    + by rewrite (deref_update_at _ _ _ _ Hd).
  - inversion Hc.
Qed.

Lemma first_failure_app a b :
  first_failure (a ++ b)
  = if ok (first_failure a) then first_failure b else first_failure a.
Proof.
  induction a as [|st a IH]; simpl; [done|].
  destruct st; simpl; [exact IH | done].
Qed.

Lemma WaitAll_app a : forall b service root,
  WaitAll (a ++ b) service root
  = let '(sa, ra) := WaitAll a service root in
    let '(sb, rb) := WaitAll b service ra in
    (if ok sa then sb else sa, rb).
Proof.
  induction a as [|task a IH]; intros b service root; simpl.
  - by destruct (WaitAll b service root) as [[|??] ?].
  - destruct (run_task task service root) as [first root1].
    rewrite IH.
    destruct (WaitAll a service root1) as [sa ra].
    destruct (WaitAll b service ra) as [sb rb].
    by destruct first, sa.
Qed.

Lemma WaitAll_under p tasks service : forall root sub,
  deref p root = Some sub ->
  WaitAll (map (under p) tasks) service root
  = ((WaitAll tasks service sub).1,
     update_at p (fun _ => (WaitAll tasks service sub).2) root).
Proof.
  induction tasks as [|task tasks IH]; intros root sub Hd; simpl.
  - by rewrite (update_at_same _ _ _ Hd).
  - unfold run_task. simpl.
    destruct (transfer_back (tensor_in_service task) service) as [tensor|code msg].
    + rewrite update_at_app.
      rewrite (IH _ (update_at (value_pb task) (fun _ => pb_tensor tensor) sub))
        by (by apply deref_update_at).
      destruct (WaitAll tasks service _) as [others sub']. simpl.
      by rewrite update_at_overwrite.
    + rewrite (IH _ _ Hd).
      by destruct (WaitAll tasks service sub) as [others sub'].
Qed.

Lemma WaitAll_units_from service rest :
  Forall (fun c => WaitAll (units c) service (outline c)
                   = (first_failure (map (unit_status service) (leaves c)),
                      filled service c)) rest ->
  forall before,
    WaitAll (units_from (length before) rest) service
      (pb_struct (before ++ map (fun c => mkElement EmptyString (outline c)) rest))
    = (first_failure (map (unit_status service) (concat (map leaves rest))),
       pb_struct (before ++ map (fun c => mkElement EmptyString (filled service c)) rest)).
Proof.
  induction 1 as [|c rest Hc _ IH]; intros before; simpl; [done|].
  rewrite WaitAll_app.
  rewrite (WaitAll_under [length before] _ _ _ (outline c))
    by (simpl; by rewrite list_lookup_middle).
  rewrite Hc. cbn [fst snd update_at].
  rewrite alter_app_r_alt by done. rewrite Nat.sub_diag. simpl.
  specialize (IH (before ++ [mkElement EmptyString (filled service c)])).
  rewrite length_app, Nat.add_1_r, <- !app_assoc in IH. simpl in IH.
  rewrite IH. by rewrite map_app, first_failure_app.
Qed.

Lemma WaitAll_units service v :
  WaitAll (units v) service (outline v)
  = (first_failure (map (unit_status service) (leaves v)), filled service v).
Proof.
  induction v as [t|vs IH|] using XLAExecutorValue_nested_ind.
  - simpl. unfold run_task, unit_status, filled, outline. simpl.
    unfold unit_writes.
    by destruct (transfer_back t service).
  - rewrite units_struct.
    exact (WaitAll_units_from service vs IH []).
  - done.
Qed.

(** What [Materialize] does with a value of the constructors and a fresh
    output message. *)
Lemma Materialize_fresh service v :
  Constructed v ->
  Materialize (Ok v) pb_not_set service
  = (first_failure (map (unit_status service) (leaves v)), filled service v).
Proof.
  intros Hc. unfold Materialize, Wait.
  pose proof (walk_fresh v Hc [] pb_not_set [] eq_refl) as Hw.
  rewrite (map_ext _ id), map_id in Hw by apply under_nil.
  destruct (MaterializeXLAValue v [] _) as [st [root tasks]] eqn:E.
  simpl in Hw. injection Hw as -> -> ->.
  rewrite WaitAll_units. by destruct (first_failure _).
Qed.

(** ** Failures of the units *)

Lemma first_failure_failed statuses st :
  In st statuses -> ok st = false -> ok (first_failure statuses) = false.
Proof.
  induction statuses as [|first rest IH]; simpl; [done|].
  intros [->|Hin] Hst; [by rewrite Hst|].
  destruct (ok first) eqn:E; auto.
Qed.

Lemma first_failure_all_ok statuses :
  Forall (fun st => ok st = true) statuses -> first_failure statuses = OkStatus.
Proof. induction 1 as [|st rest Hst _ IH]; simpl; [done|]. by rewrite Hst. Qed.

(** C3, as the code has it: when a value of the constructors with at least
    two tensor leaves is materialized into a fresh message and the unit of
    one of its leaves fails, [Materialize] returns a failure; the output
    message is not cleared: it is left with the shape of the value, a struct,
    holding the tensors of the units that succeeded. *)
Theorem materialize_leaf_failure
    (v : XLAExecutorValue) (service : Service) (t : ServiceTensor)
    (code : StatusCode) (msg : string) :
  Constructed v ->
  2 <= length (leaves v) ->
  In t (leaves v) ->
  transfer_back t service = Err code msg ->
  exists code' msg',
    Materialize (Ok v) pb_not_set service = (Error code' msg', filled service v) /\
    value_case (filled service v) = kStruct.
Proof.
  intros Hc Hn Hin Hfail. rewrite (Materialize_fresh service v Hc).
  assert (Hf : ok (first_failure (map (unit_status service) (leaves v))) = false).
  { apply (first_failure_failed _ (unit_status service t)).
    - by apply in_map.
    - unfold unit_status. by rewrite Hfail. }
  destruct (first_failure _) as [|code' msg']; [discriminate|].
  exists code', msg'. split; [done|].
  destruct v as [t'|vs|]; simpl in Hn; [lia | done | lia].
Qed.

(** ** Round trips *)

Lemma filled_agree service service' v :
  Forall (fun t => transfer_back t service' = transfer_back t service) (leaves v) ->
  filled service' v = filled service v.
Proof.
  induction v as [t|vs IH|] using XLAExecutorValue_nested_ind; intros Ha.
  - unfold filled, unit_writes. simpl. inversion Ha as [|? ? E]; subst. by rewrite E.
  - unfold filled. simpl. f_equal. simpl in Ha.
    induction IH as [|c rest Hhead _ IHrest]; simpl; [done|].
    simpl in Ha. apply Forall_app in Ha as [Hc Hrest].
    f_equal; [f_equal; by apply Hhead | by apply IHrest].
  - done.
Qed.

Lemma readable_persists service service' ts :
  (forall t tensor, transfer_back t service = Ok tensor ->
                    transfer_back t service' = Ok tensor) ->
  Forall (fun t => ok (unit_status service t) = true) ts ->
  Forall (fun t => ok (unit_status service' t) = true) ts /\
  Forall (fun t => transfer_back t service' = transfer_back t service) ts.
Proof.
  intros Hp. induction 1 as [|t ts Ht _ [IH1 IH2]]; [by split|].
  unfold unit_status in Ht.
  destruct (transfer_back t service) as [tensor|] eqn:E; [|discriminate].
  pose proof (Hp _ _ E) as E'.
  split; constructor; try done.
  - unfold unit_status. by rewrite E'.
  - by rewrite E, E'.
Qed.

Lemma transfer_back_persists literal service r service' t tensor :
  faithful ->
  TransferToServer literal service = (r, service') ->
  transfer_back t service = Ok tensor ->
  transfer_back t service' = Ok tensor.
Proof.
  intros Hf Ht. unfold transfer_back.
  destruct (Transfer (global_data t) service) as [lit|] eqn:E; [|discriminate].
  by rewrite (allocations_persist Hf _ _ _ _ _ _ Ht E).
Qed.

Lemma EmbedTensorValue_persists value_pb service r service' t tensor :
  faithful ->
  EmbedTensorValue value_pb service = (r, service') ->
  transfer_back t service = Ok tensor ->
  transfer_back t service' = Ok tensor.
Proof.
  intros Hf. unfold EmbedTensorValue.
  destruct (DeserializeTensorValue value_pb) as [t0|]; [|by intros [= _ <-]].
  destruct (HostTensorToBorrowingLiteral t0) as [st lit].
  destruct (negb (ok st)); [by intros [= _ <-]|].
  destruct (TransferToServer lit service) as [r0 s0] eqn:Et.
  intros Hr. assert (s0 = service') as -> by (destruct r0; by injection Hr).
  by eapply transfer_back_persists.
Qed.

Lemma CreateValueAny_elements_persists element :
  Forall (fun el => forall service r service' t tensor,
            CreateValueAny (value el) service = (r, service') ->
            transfer_back t service = Ok tensor ->
            transfer_back t service' = Ok tensor) element ->
  forall acc service r service' t tensor,
    CreateValueAny_elements CreateValueAny element acc service = (r, service') ->
    transfer_back t service = Ok tensor ->
    transfer_back t service' = Ok tensor.
Proof.
  induction 1 as [|el rest Hel _ IH]; intros acc service r service' t tensor; simpl.
  - by intros [= _ <-].
  - destruct (CreateValueAny (value el) service) as [[v|code msg] service1] eqn:E.
    + intros Hl Ht. eapply IH; [exact Hl|]. by eapply Hel.
    + intros [= _ <-] Ht. by eapply Hel.
Qed.

Lemma CreateValueAny_persists value_pb :
  faithful ->
  forall service r service' t tensor,
    CreateValueAny value_pb service = (r, service') ->
    transfer_back t service = Ok tensor ->
    transfer_back t service' = Ok tensor.
Proof.
  intros Hf.
  induction value_pb as [|p|element IH|c|s|f] using Value_pb_nested_ind;
    intros service r service' t tensor; try (by intros [= _ <-]).
  - rewrite CreateValueAny_tensor. by apply EmbedTensorValue_persists.
  - rewrite CreateValueAny_struct. by apply CreateValueAny_elements_persists.
Qed.

Lemma created_in_order_persists element service vs service' t tensor :
  faithful ->
  created_in_order element service vs service' ->
  transfer_back t service = Ok tensor ->
  transfer_back t service' = Ok tensor.
Proof.
  intros Hf. induction 1 as [|el rest service v service1 vs service2 Hel _ IH]; [done|].
  intros Ht. apply IH. by eapply CreateValueAny_persists.
Qed.

Lemma EmbedTensorValue_faithful tensor t service :
  faithful ->
  DeserializeTensorValue (pb_tensor tensor) = Ok t ->
  exists data service',
    EmbedTensorValue (pb_tensor tensor) service
    = (Ok (XLAExecutorValue_of_data data (tensor_dtype t)), service') /\
    transfer_back (mkServiceTensor _ data (tensor_dtype t)) service' = Ok tensor.
Proof.
  intros Hf Hd.
  destruct (literal_round_trips Hf t) as (lit & Hl & Hb).
  destruct (transfer_round_trips Hf lit service) as (data & service' & Ht & Hr).
  exists data, service'. unfold EmbedTensorValue, transfer_back. simpl.
  rewrite Hd, Hl. simpl. rewrite Ht, Hr, Hb. simpl.
  by rewrite (codec_round_trips Hf _ _ Hd).
Qed.

Lemma create_elements_faithful element :
  faithful ->
  Forall (fun el => created_faithfully (value el)) element ->
  forall service, exists vs service',
    created_in_order element service vs service' /\
    Forall (fun t => ok (unit_status service' t) = true) (concat (map leaves vs)) /\
    map (fun c => mkElement EmptyString (filled service' c)) vs
    = map (fun el => mkElement EmptyString (unnamed (value el))) element.
Proof.
  intros Hf. induction 1 as [|el rest Hel _ IH]; intros service.
  - exists [], service. repeat split; constructor.
  - destruct (Hel service) as (v & service1 & Hv & Hok & Hfilled).
    destruct (IH service1) as (vs & service2 & Hvs & Hoks & Hmap).
    exists (v :: vs), service2. split; [by econstructor|].
    destruct (readable_persists service1 service2 (leaves v)) as [Hok2 Hag]; [|done|].
    { intros t tensor. by eapply created_in_order_persists. }
    simpl. split; [by apply Forall_app|].
    by rewrite Hmap, (filled_agree _ _ _ Hag), Hfilled.
Qed.

Lemma create_faithful value_pb :
  faithful -> well_formed value_pb -> created_faithfully value_pb.
Proof.
  intros Hf.
  induction value_pb as [|p|element IH|c|s|f] using Value_pb_nested_ind;
    intros Hw; try (by inversion Hw).
  - inversion Hw as [? t Hd|]; subst. intros service.
    destruct (EmbedTensorValue_faithful p t service Hf Hd) as (data & service' & He & Hb).
    eexists _, service'. rewrite CreateValueAny_tensor. split; [exact He|].
    split.
    + constructor; [|constructor]. unfold unit_status. by rewrite Hb.
    + unfold filled, unit_writes. simpl.
      by rewrite Hb.
  - assert (Hall : Forall (fun el => created_faithfully (value el)) element).
    { inversion Hw as [|? Hwf]; subst. clear Hw.
      induction IH as [|el rest Hel _ IHrest]; inversion Hwf; subst; constructor; auto. }
    intros service.
    destruct (create_elements_faithful element Hf Hall service)
      as (vs & service' & Hc & Hok & Hmap).
    exists (holds_vector vs), service'.
    rewrite CreateValueAny_struct, (elements_all_created _ [] _ _ _ Hc).
    split; [done|]. split; [done|].
    unfold filled in *. simpl. by rewrite Hmap.
Qed.

Lemma unnamed_equivalent value_pb :
  well_formed value_pb -> equivalent (unnamed value_pb) value_pb.
Proof.
  induction value_pb as [|p|element IH|c|s|f] using Value_pb_nested_ind;
    intros Hw; try (by inversion Hw).
  - constructor.
  - simpl. constructor. inversion Hw as [|? Hwf]; subst. clear Hw.
    induction IH as [|el rest Hel _ IHrest]; inversion Hwf; subst; constructor; auto.
Qed.

(** The names of the elements are what a round trip does not keep. *)
Remark unnamed_drops_names (n : string) (value_pb : Value_pb) :
  n <> EmptyString ->
  unnamed (pb_struct [mkElement n value_pb]) <> pb_struct [mkElement n value_pb].
Proof. intros Hn. simpl. intros [= E _]. by apply Hn. Qed.

(** C1: when the collaborators succeed and round-trip, creating a value from
    a well-formed message and materializing its future into a fresh message
    succeeds and leaves the message without the names of its elements, which
    is equivalent to it: the same tensors in the same structure, element for
    element in the same order. *)
Theorem materialize_create_round_trip (value_pb : Value_pb) (w : World) :
  faithful ->
  well_formed value_pb ->
  exists future w' out,
    CreateExecutorValue value_pb w = (Ok future, w') /\
    Materialize future pb_not_set (xla_client_ w') = (OkStatus, out) /\
    out = unnamed value_pb /\
    equivalent out value_pb.
Proof.
  intros Hf Hw.
  destruct (create_faithful value_pb Hf Hw (xla_client_ w))
    as (v & service' & Hv & Hok & Hfilled).
  exists (Ok v), (mkWorld service' (S (thread_runs w))), (unnamed value_pb).
  unfold CreateExecutorValue, ThreadRun. rewrite Hv. split; [done|].
  simpl. rewrite Materialize_fresh by (by eapply CreateValueAny_Constructed).
  rewrite Hfilled, first_failure_all_ok.
  - repeat split. by apply unnamed_equivalent.
  - by apply Forall_map.
Qed.

(** ** The empty struct *)

(** C10: the struct message without elements gives the struct value without
    children and allocates nothing; materializing that value into a fresh
    message succeeds, registers no task and leaves a struct message without
    elements. *)
Theorem empty_struct (service : Service) :
  CreateValueAny (pb_struct []) service = (Ok (holds_vector []), service) /\
  MaterializeXLAValue (holds_vector []) [] (pb_not_set, [])
    = (OkStatus, (pb_struct [], [])) /\
  Materialize (Ok (holds_vector [])) pb_not_set service = (OkStatus, pb_struct []) /\
  value_case (snd (Materialize (Ok (holds_vector [])) pb_not_set service)) = kStruct.
Proof. repeat split. Qed.

End Properties.

(** ** The failures of [GetXLAClient] *)

(** C9, as the code has it: a failure of [GetXLAClient] is an internal
    failure. When the platform was not found, its message is the text about
    the missing platform with the name of the platform in it, followed by
    the message of the lookup: it carries both. When the client could not be
    constructed, its message is written without the name of the platform: it
    is the text [Failed to construct XLA client. Message: ] followed by the
    message of the construction, and nothing else. *)
Theorem GetXLAClient_failures {Platform Client : Type}
    (PlatformWithName : string -> StatusOr Platform)
    (GetOrCreateLocalClient : Platform -> StatusOr Client)
    (platform_name : string) (code : StatusCode) (text : string) :
  GetXLAClient _ _ PlatformWithName GetOrCreateLocalClient platform_name = Err code text ->
  code = kInternal /\
  ((exists c msg,
      PlatformWithName platform_name = Err c msg /\
      text = StrCat "Failed to find specified platform "
               (StrCat platform_name
                  (StrCat " in MultiPlatformManager. You may be missing a build dependency to register the platform. Message: "
                          msg)) /\
      contains platform_name text = true /\ contains msg text = true) \/
   (exists platform c msg,
      PlatformWithName platform_name = Ok platform /\
      GetOrCreateLocalClient platform = Err c msg /\
      text = StrCat "Failed to construct XLA client. Message: " msg /\
      contains msg text = true)).
Proof.
  unfold GetXLAClient.
  destruct (PlatformWithName platform_name) as [platform|c msg] eqn:Ep.
  - destruct (GetOrCreateLocalClient platform) as [client|c msg] eqn:Ec; [discriminate|].
    intros [= <- <-]. split; [done|]. right. exists platform, c, msg.
    repeat split; [done|]. apply contains_suffix.
  - intros [= <- <-]. split; [done|]. left. exists c, msg. repeat split.
    + unfold StrCat. apply contains_append.
    + unfold StrCat. rewrite <- !append_assoc. apply contains_suffix.
Qed.

(** * More of the executor *)

Section MoreProperties.
Context `{Collaborators}.


(** ** What a successful creation has done *)

Lemma EmbedTensorValue_Ok_inv value_pb service v service' :
  EmbedTensorValue value_pb service = (Ok v, service') ->
  exists t literal data,
    DeserializeTensorValue value_pb = Ok t /\
    HostTensorToBorrowingLiteral t = (OkStatus, literal) /\
    TransferToServer literal service = (Ok data, service') /\
    v = XLAExecutorValue_of_data data (tensor_dtype t).
Proof.
  unfold EmbedTensorValue.
  destruct (DeserializeTensorValue value_pb) as [t|] eqn:Ed; [|discriminate].
  destruct (HostTensorToBorrowingLiteral t) as [[|c m] lit] eqn:El; simpl; [|discriminate].
  destruct (TransferToServer lit service) as [[data|] s1] eqn:Et; [|discriminate].
  intros [= <- <-]. by exists t, lit, data.
Qed.



Lemma transferred_app service a b :
  transferred service (a ++ b) = transferred (transferred service a) b.
Proof. apply fold_left_app. Qed.

Lemma created_in_order_facts element :
  Forall (fun el => creation_facts (value el)) element ->
  forall service vs service',
    created_in_order element service vs service' ->
    Forall (fun el => well_formed (value el)) element /\
    map (fun c => mkElement EmptyString (outline c)) vs
    = map (fun el => mkElement EmptyString (blank (value el))) element /\
    Forall2 leaf_of (concat (map leaves vs))
      (concat (map (fun el => tensors_of (value el)) element)) /\
    service' = transferred service
                 (concat (map (fun el => tensors_of (value el)) element)).
Proof.
  induction 1 as [|el rest Hel _ IH]; intros service vs service' Hc;
    inversion Hc as [|? ? ? v service1 vs' ? Hv Hrest]; subst.
  - repeat split; constructor.
  - destruct (Hel _ _ _ Hv) as (Hw & Ho & Hl & ->).
    destruct (IH _ _ _ Hrest) as (Hws & Hos & Hls & ->).
    simpl. repeat split.
    + by constructor.
    + by rewrite Ho, Hos.
    + by apply Forall2_app.
    + by rewrite transferred_app.
Qed.

Lemma creation_success value_pb : creation_facts value_pb.
Proof.
  induction value_pb as [|p|element IH|c|s|f] using Value_pb_nested_ind;
    intros service v service' Hv; try discriminate.
  - rewrite CreateValueAny_tensor in Hv.
    destruct (EmbedTensorValue_Ok_inv _ _ _ _ Hv) as (t & lit & data & Hd & Hl & Ht & ->).
    repeat split.
    + by econstructor.
    + constructor; [|constructor]. by exists t.
    + unfold transferred. simpl. unfold literal_of. rewrite Hd, Hl. simpl.
      by rewrite Ht.
  - rewrite CreateValueAny_struct in Hv.
    destruct (elements_created_inv _ _ _ _ _ Hv) as (vs & -> & Hc).
    destruct (created_in_order_facts element IH _ _ _ Hc) as (Hw & Ho & Hl & ->).
    repeat split; try done.
    + by constructor.
    + unfold outline in *. simpl. by rewrite Ho.
Qed.


(** ** How a creation fails *)

Lemma elements_failure_inv rest : forall acc service code msg service',
  CreateValueAny_elements CreateValueAny rest acc service = (Err code msg, service') ->
  exists pre el post vs service1,
    rest = pre ++ el :: post /\
    created_in_order pre service vs service1 /\
    CreateValueAny (value el) service1 = (Err code msg, service').
Proof.
  induction rest as [|el rest IH]; intros acc service code msg service' Hl;
    simpl in Hl; [discriminate|].
  destruct (CreateValueAny (value el) service) as [[v|c m] service1] eqn:E.
  - destruct (IH _ _ _ _ _ Hl) as (pre & el' & post & vs & s1 & -> & Hc & Hf).
    exists (el :: pre), el', post, (v :: vs), s1. repeat split; [|done].
    by econstructor.
  - injection Hl as -> -> ->.
    exists [], el, rest, [], service. repeat split; [constructor | done].
Qed.

Lemma EmbedTensorValue_Err_code value_pb service code msg service' :
  EmbedTensorValue value_pb service = (Err code msg, service') ->
  DeserializeTensorValue value_pb = Err code msg \/ code = kInvalidArgument.
Proof.
  unfold EmbedTensorValue.
  destruct (DeserializeTensorValue value_pb) as [t|c m]; [|intros [= <- <- _]; by left].
  destruct (HostTensorToBorrowingLiteral t) as [st lit].
  destruct (negb (ok st)); [intros [= <- _ _]; by right|].
  destruct (TransferToServer lit service) as [[data|c m] s1]; [discriminate|].
  intros [= <- _ _]. by right.
Qed.

(** X5: a failure of [EmbedTensorValue] is the failure of the codec,
    unchanged, with the service as it was; or an invalid-argument failure of
    the conversion to a literal, whose message carries the message of the
    conversion, with the service as it was; or an invalid-argument failure
    after [TransferToServer] failed, with the service that call left. *)
Theorem EmbedTensorValue_failure_kinds value_pb service code msg service' :
  EmbedTensorValue value_pb service = (Err code msg, service') ->
  (DeserializeTensorValue value_pb = Err code msg /\ service' = service) \/
  (code = kInvalidArgument /\
   ((exists t st literal,
       DeserializeTensorValue value_pb = Ok t /\
       HostTensorToBorrowingLiteral t = (st, literal) /\ ok st = false /\
       contains (error_message st) msg = true /\ service' = service) \/
    (exists t literal c m,
       DeserializeTensorValue value_pb = Ok t /\
       HostTensorToBorrowingLiteral t = (OkStatus, literal) /\
       TransferToServer literal service = (Err c m, service')))).
Proof.
  unfold EmbedTensorValue.
  destruct (DeserializeTensorValue value_pb) as [t|c m] eqn:Ed.
  - destruct (HostTensorToBorrowingLiteral t) as [[|c m] lit] eqn:El; simpl.
    + destruct (TransferToServer lit service) as [[data|c m] s1] eqn:Et; [discriminate|].
      intros [= <- <- <-]. right. split; [done|]. right. by exists t, lit, c, m.
    + intros [= <- <- <-]. right. split; [done|]. left.
      exists t, (Error c m), lit. repeat split; try done.
      apply contains_suffix.
  - intros [= <- <- <-]. by left.
Qed.


(** X1: [CreateValueAny] succeeds only on a message made of structs and of
    tensors the codec decodes. *)
Theorem creation_succeeds_only_on_well_formed value_pb service v service' :
  CreateValueAny value_pb service = (Ok v, service') -> well_formed value_pb.
Proof. intros Hv. by destruct (creation_success value_pb _ _ _ Hv) as (? & _). Qed.

(** X2: the value [CreateValueAny] returns has the structure of the message,
    a leaf for each tensor of the message in the same order, and each leaf
    records the element type of the tensor decoded from its message. *)
Theorem created_value_mirrors_message value_pb service v service' :
  CreateValueAny value_pb service = (Ok v, service') ->
  outline v = blank value_pb /\
  Forall2 leaf_of (leaves v) (tensors_of value_pb).
Proof.
  intros Hv. by destruct (creation_success value_pb _ _ _ Hv) as (_ & ? & ? & _).
Qed.

(** X3: a successful [CreateValueAny] leaves the service as one transfer per
    tensor of the message, in message order, leaves it; the structs add
    nothing. *)
Theorem creation_transfers_each_tensor_once value_pb service v service' :
  CreateValueAny value_pb service = (Ok v, service') ->
  service' = transferred service (tensors_of value_pb) /\
  length (leaves v) = length (tensors_of value_pb).
Proof.
  intros Hv. destruct (creation_success value_pb _ _ _ Hv) as (_ & _ & Hl & ->).
  split; [done|]. by eapply Forall2_length.
Qed.

(** X4: a failure of [CreateValueAny] is the unimplemented failure of a
    message that is neither tensor nor struct, an invalid-argument failure,
    or the failure of the codec on one of the tensors of the message, with
    its code and message unchanged. *)
Theorem creation_failure_classes value_pb : forall service code msg service',
  CreateValueAny value_pb service = (Err code msg, service') ->
  (code = kUnimplemented /\ msg = "Not implemented yet"%string) \/
  code = kInvalidArgument \/
  exists tensor, In tensor (tensors_of value_pb) /\
                 DeserializeTensorValue (pb_tensor tensor) = Err code msg.
Proof.
  induction value_pb as [|p|element IH|c|s|f] using Value_pb_nested_ind;
    intros service code msg service' Hv;
    try (injection Hv as <- <- _; by left).
  - rewrite CreateValueAny_tensor in Hv. right.
    destruct (EmbedTensorValue_Err_code _ _ _ _ _ Hv) as [Hd| ->]; [|by left].
    right. exists p. split; [by left | done].
  - rewrite CreateValueAny_struct in Hv.
    destruct (elements_failure_inv _ _ _ _ _ _ Hv)
      as (pre & el & post & vs & s1 & -> & _ & Hf).
    apply Forall_app in IH as [_ IH]. inversion IH as [|? ? Hel _]; subst.
    destruct (Hel _ _ _ _ Hf) as [?|[?|(tensor & Hin & Hd)]]; [by left | by right; left|].
    right. right. exists tensor. split; [|done].
    simpl. rewrite map_app, concat_app. apply in_or_app. right.
    simpl. apply in_or_app. by left.
Qed.

Lemma CreateValueAny_elements_unnamed element :
  Forall (fun el => forall service,
            CreateValueAny (unnamed (value el)) service
            = CreateValueAny (value el) service) element ->
  forall acc service,
    CreateValueAny_elements CreateValueAny
      (map (fun el => mkElement EmptyString (unnamed (value el))) element) acc service
    = CreateValueAny_elements CreateValueAny element acc service.
Proof.
  induction 1 as [|el rest Hel _ IH]; intros acc service; simpl; [done|].
  rewrite Hel. destruct (CreateValueAny (value el) service) as [[v|c m] s1]; [|done].
  apply IH.
Qed.

Lemma CreateValueAny_unnamed value_pb : forall service,
  CreateValueAny (unnamed value_pb) service = CreateValueAny value_pb service.
Proof.
  induction value_pb as [|p|element IH|c|s|f] using Value_pb_nested_ind;
    intros service; try done.
  change (unnamed (pb_struct element))
    with (pb_struct (map (fun el => mkElement EmptyString (unnamed (value el))) element)).
  rewrite !CreateValueAny_struct. by apply CreateValueAny_elements_unnamed.
Qed.

(** X6: the names of the elements have no part in a creation: two messages
    that differ in nothing but those names give the same result and leave
    the service in the same state. *)
Theorem creation_ignores_element_names a b service :
  unnamed a = unnamed b ->
  CreateValueAny a service = CreateValueAny b service.
Proof.
  intros E. by rewrite <- (CreateValueAny_unnamed a), E, CreateValueAny_unnamed.
Qed.

(** X7: [CreateExecutorValue] itself does not fail: it hands one unit to
    [ThreadRun] and returns a future. When the creation fails, [Materialize]
    on that future returns the failure of the creation, code and message
    unchanged, and leaves the output message as it was. *)
Theorem creation_failure_surfaces_at_Materialize
    value_pb (w : World) code msg service' (out : Value_pb) :
  CreateValueAny value_pb (xla_client_ w) = (Err code msg, service') ->
  exists future,
    CreateExecutorValue value_pb w
      = (Ok future, mkWorld service' (S (thread_runs w))) /\
    Materialize future out service' = (Error code msg, out).
Proof.
  intros Hv. exists (Err code msg).
  unfold CreateExecutorValue, ThreadRun. by rewrite Hv.
Qed.

(** ** What the walk does *)




Lemma update_at_id p : forall root, update_at p (fun x => x) root = root.
Proof.
  induction p as [|i p IH]; intros root; simpl; [done|].
  destruct root as [| |element| | |]; try done. f_equal.
  apply list_alter_id. intros [n v]. simpl. by rewrite IH.
Qed.

Lemma Constructed_vector vs : Constructed (holds_vector vs) <-> Forall Constructed vs.
Proof. split; [by inversion 1 | apply Constructed_span]. Qed.

Lemma MaterializeXLAValue_elements_cons materialize p c rest (m : Materialization) :
  MaterializeXLAValue_elements materialize p (c :: rest) m
  = match materialize c (p ++ [element_size (deref p m.1)])
            (update_at p add_element m.1, m.2) with
    | (OkStatus, m') => MaterializeXLAValue_elements materialize p rest m'
    | (Error code msg, m') => (Error code msg, m')
    end.
Proof. reflexivity. Qed.

Lemma walk_elements_facts p rest :
  Forall walk_facts rest ->
  forall root tasks, exists st f ts,
    MaterializeXLAValue_elements MaterializeXLAValue p rest (root, tasks)
    = (st, (update_at p f root, tasks ++ ts)) /\
    Forall (fun task => exists q, value_pb task = p ++ q) ts /\
    (st = OkStatus <-> Forall Constructed rest) /\
    (st = OkStatus \/ st = unimplemented_type_failure) /\
    (st = OkStatus -> map tensor_in_service ts = concat (map leaves rest)).
Proof.
  induction 1 as [|c rest Hc _ IH]; intros root tasks.
  - exists OkStatus, (fun x => x), []. simpl. rewrite update_at_id, app_nil_r.
    repeat split; auto.
  - rewrite MaterializeXLAValue_elements_cons. cbn [fst snd].
    set (index := element_size (deref p root)).
    destruct (Hc (p ++ [index]) (update_at p add_element root) tasks)
      as (st & f & ts & Hwalk & Hts & Hiff & Hor & Hleaves).
    rewrite Hwalk, update_at_app, update_at_twice.
    assert (Hslots : Forall (fun task => exists q, value_pb task = p ++ q) ts).
    { eapply Forall_impl; [exact Hts|]. intros task [q ->].
      exists ([index] ++ q). by rewrite app_assoc. }
    destruct st as [|code msg].
    + destruct (IH (update_at p (update_at [index] f ∘ add_element) root) (tasks ++ ts))
        as (st' & f' & ts' & Hloop & Hts' & Hiff' & Hor' & Hleaves').
      exists st', (f' ∘ (update_at [index] f ∘ add_element)), (ts ++ ts').
      split; [rewrite <- (update_at_twice p f'), app_assoc; exact Hloop|].
      repeat split; try done.
      * by apply Forall_app.
      * intros ->. constructor; [by apply Hiff | by apply Hiff'].
      * inversion 1; subst. by apply Hiff'.
      * intros ->. rewrite map_app, Hleaves, Hleaves'; done.
    + exists (Error code msg), (update_at [index] f ∘ add_element), ts.
      repeat split; try done.
      inversion 1 as [|? ? Hcc _]; subst. by apply Hiff in Hcc.
Qed.

Lemma walk_general v : walk_facts v.
Proof.
  induction v as [t|vs IH|] using XLAExecutorValue_nested_ind; intros p root tasks.
  - exists OkStatus, (fun x => x), [mkTask t p]. rewrite update_at_id.
    repeat split; auto.
    + constructor; [|constructor]. exists []. simpl. by rewrite app_nil_r.
    + intros _. destruct t. apply Constructed_data.
  - rewrite MaterializeXLAValue_struct. cbn [fst snd].
    destruct (walk_elements_facts p vs IH (update_at p mutable_struct_ root) tasks)
      as (st & f & ts & -> & Hts & Hiff & Hor & Hleaves).
    exists st, (f ∘ mutable_struct_), ts. rewrite update_at_twice.
    repeat split; try done.
    + intros E. apply Constructed_vector. by apply Hiff.
    + intros Hc. apply Hiff. by apply Constructed_vector.
  - exists unimplemented_type_failure, (fun x => x), []. rewrite update_at_id, app_nil_r.
    repeat split; auto; try done. inversion 1.
Qed.

Lemma deref_update_apart p : forall q f root,
  apart p q = true -> deref q (update_at p f root) = deref q root.
Proof.
  induction p as [|i p IH]; intros [|j q] f root Ha; try discriminate.
  simpl in Ha. destruct root as [| |element| | |]; try done. simpl.
  destruct (Nat.eqb_spec i j) as [->|Hne].
  - rewrite list_lookup_alter_eq. destruct (element !! j) as [el|]; [|done].
    simpl. by apply IH.
  - by rewrite list_lookup_alter_ne.
Qed.

(** X8: [MaterializeXLAValue] succeeds exactly on the values the constructors
    build; on any other value it returns the unimplemented failure of its
    default case, whatever the output message, the slot and the tasks. *)
Theorem walk_succeeds_on_constructed_values
    (v : XLAExecutorValue) (p : Pointer) (m : Materialization) :
  (Constructed v /\ fst (MaterializeXLAValue v p m) = OkStatus) \/
  (~ Constructed v /\ fst (MaterializeXLAValue v p m) = unimplemented_type_failure).
Proof.
  destruct m as [root tasks].
  destruct (walk_general v p root tasks) as (st & f & ts & -> & _ & Hiff & [->| ->] & _).
  - left. split; [by apply Hiff | done].
  - right. split; [|done]. intros Hc. by apply Hiff in Hc.
Qed.

(** X9: [MaterializeXLAValue] changes the output message in the slot it is
    given and nowhere else: what lies at a pointer that parts ways with the
    slot is as it was. The tasks that were registered stay, in order, and
    the new ones, after them, write under the slot. *)
Theorem walk_stays_in_its_slot
    (v : XLAExecutorValue) (p q : Pointer) (root : Value_pb) (tasks : ParallelTasks) :
  apart p q = true ->
  deref q (MaterializeXLAValue v p (root, tasks)).2.1 = deref q root /\
  exists ts,
    (MaterializeXLAValue v p (root, tasks)).2.2 = tasks ++ ts /\
    Forall (fun task => exists below, value_pb task = p ++ below) ts.
Proof.
  intros Ha.
  destruct (walk_general v p root tasks) as (st & f & ts & -> & Hts & _).
  cbn [fst snd]. split; [by apply deref_update_apart | by exists ts].
Qed.

(** X10: a walk that succeeds registers one task per tensor leaf of the
    value, in the order of the leaves, each holding its leaf. *)
Theorem walk_registers_one_task_per_leaf
    (v : XLAExecutorValue) (p : Pointer) (root root' : Value_pb)
    (tasks tasks' : ParallelTasks) :
  MaterializeXLAValue v p (root, tasks) = (OkStatus, (root', tasks')) ->
  exists ts, tasks' = tasks ++ ts /\ map tensor_in_service ts = leaves v.
Proof.
  destruct (walk_general v p root tasks) as (st & f & ts & -> & _ & _ & _ & Hl).
  intros [= -> _ <-]. exists ts. split; [done | by apply Hl].
Qed.

(** ** What [Materialize] leaves *)


Lemma first_failure_ok statuses :
  first_failure statuses = OkStatus <-> Forall (fun st => ok st = true) statuses.
Proof.
  split; [|apply first_failure_all_ok].
  induction statuses as [|st rest IH]; simpl; [constructor|].
  destruct st; [|discriminate]. intros E. constructor; [done | by apply IH].
Qed.

(** X11: materializing a value of the constructors into a fresh message
    succeeds exactly when the unit of every tensor leaf succeeds; the message
    it leaves has the structure of the value, with the tensor set wherever
    the unit succeeded. *)
Theorem Materialize_succeeds_iff_all_units_succeed
    (v : XLAExecutorValue) (service : Service) :
  Constructed v ->
  (fst (Materialize (Ok v) pb_not_set service) = OkStatus <->
   Forall (fun t => exists tensor, transfer_back t service = Ok tensor) (leaves v)) /\
  snd (Materialize (Ok v) pb_not_set service) = filled service v.
Proof.
  intros Hc. rewrite (Materialize_fresh service v Hc). cbn [fst snd].
  split; [|done]. rewrite first_failure_ok, Forall_map.
  apply Forall_iff. intros t. unfold unit_status.
  destruct (transfer_back t service) as [tensor|c m]; simpl; split;
    try done; [by eexists | by intros [? ?]].
Qed.

(** X12: [Materialize] does not clear the output message. Into a message
    that is a struct already, a struct value is materialized after the
    elements that are there: they stay, and one element per child follows
    them. *)
Theorem Materialize_appends_to_a_struct
    (vs : list XLAExecutorValue) (old : list (Element Value_pb)) (service : Service) :
  Forall Constructed vs ->
  exists st,
    Materialize (Ok (holds_vector vs)) (pb_struct old) service
    = (st, pb_struct (old ++ map (fun c => mkElement EmptyString (filled service c)) vs)).
Proof.
  intros Hvs. unfold Materialize, Wait.
  pose proof (walk_elements_fresh [] vs) as Hw.
  specialize (Hw (Forall_impl _ _ _ Hvs (fun c Hc => walk_fresh c Hc)) old (pb_struct old) [] eq_refl).
  rewrite MaterializeXLAValue_struct. cbn [fst snd update_at mutable_struct_].
  destruct (MaterializeXLAValue_elements _ _ _ _) as [st [root tasks]] eqn:E.
  simpl in Hw. rewrite (map_ext _ id), map_id in Hw by apply under_nil.
  injection Hw as -> -> ->.
  assert (Hall : Forall (fun c => WaitAll (units c) service (outline c)
                   = (first_failure (map (unit_status service) (leaves c)),
                      filled service c)) vs).
  { apply Forall_forall. intros c _. apply WaitAll_units. }
  rewrite (WaitAll_units_from service vs Hall old).
  destruct (first_failure _); by eexists.
Qed.

(** X13: materializing a tensor value replaces whatever the output message
    holds by the tensor when the unit succeeds, and leaves the message as it
    was, with the failure of the unit as the result, when it fails. *)
Theorem Materialize_tensor
    (t : ServiceTensor) (out : Value_pb) (service : Service) :
  Materialize (Ok (holds_tensor t)) out service
  = match transfer_back t service with
    | Ok tensor => (OkStatus, pb_tensor tensor)
    | Err code msg => (Error code msg, out)
    end.
Proof.
  unfold Materialize, Wait. simpl. unfold run_task. simpl.
  by destruct (transfer_back t service).
Qed.

(** X14: a unit fails in one of three ways: the transfer from the service
    fails, or the conversion of the literal fails, and the failure is an
    internal one whose message carries the message of that step; or the
    codec fails to encode the tensor, and the failure is the codec's,
    unchanged. *)
Theorem transfer_back_failure_kinds
    (t : ServiceTensor) (service : Service) (code : StatusCode) (msg : string) :
  transfer_back t service = Err code msg ->
  (code = kInternal /\
   exists c m, Transfer (global_data t) service = Err c m /\
               contains m msg = true) \/
  (code = kInternal /\
   exists literal st tensor_out,
     Transfer (global_data t) service = Ok literal /\
     LiteralToHostTensor literal (dtype t) = (st, tensor_out) /\
     ok st = false /\ contains (error_message st) msg = true) \/
  (exists literal tensor_out,
     Transfer (global_data t) service = Ok literal /\
     LiteralToHostTensor literal (dtype t) = (OkStatus, tensor_out) /\
     SerializeTensorValue tensor_out = Err code msg).
Proof.
  unfold transfer_back.
  destruct (Transfer (global_data t) service) as [lit|c m] eqn:Et.
  - destruct (LiteralToHostTensor lit (dtype t)) as [[|c m] tensor_out] eqn:El; simpl.
    + intros Hs. right. right. by exists lit, tensor_out.
    + intros [= <- <-]. right. left. split; [done|].
      exists lit, (Error c m), tensor_out. repeat split; try done.
      apply contains_suffix.
  - intros [= <- <-]. left. split; [done|]. exists c, m. split; [done|].
    apply contains_suffix.
Qed.

End MoreProperties.

(** ** The factory *)


(** X15: [CreateXLAExecutor] returns an executor exactly when the platform is
    found and its client is constructed, and the executor holds that client
    and an empty platform name; every failure is an internal one, that of
    [GetXLAClient]. *)
Theorem CreateXLAExecutor_result {Platform Client : Type}
    (PlatformWithName : string -> StatusOr Platform)
    (GetOrCreateLocalClient : Platform -> StatusOr Client)
    (platform_name : string) :
  match Factory.CreateXLAExecutor _ _ PlatformWithName GetOrCreateLocalClient platform_name with
  | Ok executor =>
      exists platform,
        PlatformWithName platform_name = Ok platform /\
        GetOrCreateLocalClient platform = Ok (Factory.xla_client_ _ executor) /\
        Factory.platform_name_ _ executor = EmptyString
  | Err code msg =>
      code = kInternal /\
      GetXLAClient _ _ PlatformWithName GetOrCreateLocalClient platform_name = Err code msg /\
      ((exists c m, PlatformWithName platform_name = Err c m) \/
       (exists platform c m, PlatformWithName platform_name = Ok platform /\
                             GetOrCreateLocalClient platform = Err c m))
  end.
Proof.
  unfold Factory.CreateXLAExecutor, GetXLAClient.
  destruct (PlatformWithName platform_name) as [platform|c m] eqn:Ep.
  - destruct (GetOrCreateLocalClient platform) as [client|c m] eqn:Ec.
    + by exists platform.
    + repeat split. right. by exists platform, c, m.
  - repeat split. left. by exists c, m.
Qed.

(** * The properties on the two small services *)

Import Toy.

Lemma reliable_is_faithful : @faithful types reliable.
Proof.
  split.
  - intros tensor t. simpl. by intros [= ->].
  - intros [dtype numbers]. by exists numbers.
  - intros literal allocations. exists (length allocations), (allocations ++ [literal]).
    split; [done|]. simpl. by rewrite list_lookup_middle.
  - intros literal allocations r allocations' data literal0. simpl.
    intros [= _ <-].
    intros Hl.
    match type of Hl with
    | match ?x with _ => _ end = _ => destruct x as [l|] eqn:E; [|discriminate]
    end.
    injection Hl as ->. by rewrite (lookup_app_l_Some _ _ _ _ E).
Qed.

Lemma materialize_create_round_trip_witness :
  exists future w' out,
    @CreateExecutorValue types reliable two_tensors fresh = (Ok future, w') /\
    @Materialize types reliable future pb_not_set (xla_client_ w') = (OkStatus, out) /\
    out = unnamed two_tensors /\
    equivalent out two_tensors.
Proof.
  apply (@materialize_create_round_trip types reliable).
  - exact reliable_is_faithful.
  - repeat econstructor.
Defined.

Lemma struct_children_in_order_all_or_nothing_witness :
  @CreateValueAny types faulty
    large_second (xla_client_ fresh)
  = (Err kInvalidArgument "Failed to transfer XLA literal to local server. Message: ",
     [[1; 2; 3]%Z]).
Proof.
  apply (proj1 (proj2 (@struct_children_in_order_all_or_nothing types faulty _ _))
           [mkElement "a" (tensor_pb 3 [1; 2; 3]%Z)]
           (mkElement "b" (tensor_pb 1 [4; 5; 6; 7]%Z))
           [mkElement "c" (tensor_pb 1 [8]%Z)]
           [tensor_value 0 3]
           [[1; 2; 3]%Z]).
  - reflexivity.
  - econstructor; [reflexivity | constructor].
  - reflexivity.
Defined.

Lemma materialize_leaf_failure_witness :
  exists code' msg',
    @Materialize types faulty (Ok two_tensors_value) pb_not_set allocated
    = (Error code' msg', @filled types faulty allocated two_tensors_value) /\
    value_case (@filled types faulty allocated two_tensors_value) = kStruct.
Proof.
  apply (@materialize_leaf_failure types faulty two_tensors_value
           allocated (mkServiceTensor types 1 1) kInternal
           "Error transferring tensor from XLA service to host. Message: device lost").
  - apply Constructed_span. repeat constructor.
  - simpl. lia.
  - simpl. right. left. reflexivity.
  - reflexivity.
Defined.

(** C3, as stated, fails: the faulty service made [two_tensors_value] of
    [two_tensors] and lost the second allocation; [Materialize] returns the
    failure of that unit, and the output message holds the first tensor and
    an element with nothing set: it is neither absent nor marked. *)
Lemma materialize_failure_leaves_partial_output :
  @CreateValueAny types faulty two_tensors (xla_client_ fresh) = (Ok two_tensors_value, allocated) /\
  length (leaves two_tensors_value) = 2 /\
  @transfer_back types faulty (mkServiceTensor types 1 1) allocated
  = Err kInternal "Error transferring tensor from XLA service to host. Message: device lost" /\
  @Materialize types faulty (Ok two_tensors_value) pb_not_set allocated
  = (Error kInternal "Error transferring tensor from XLA service to host. Message: device lost",
     pb_struct [mkElement "" (tensor_pb 3 [1; 2; 3]%Z); mkElement "" pb_not_set]) /\
  value_case
    (snd (@Materialize types faulty (Ok two_tensors_value) pb_not_set allocated))
  <> VALUE_NOT_SET.
Proof. repeat split. discriminate. Qed.

Lemma other_shapes_unimplemented_witness :
  @CreateValueAny types reliable computation_pb (xla_client_ fresh)
    = (Err kUnimplemented "Not implemented yet", xla_client_ fresh) /\
  exists w',
    @CreateExecutorValue types reliable computation_pb fresh
      = (Ok (Err kUnimplemented "Not implemented yet"), w') /\
    xla_client_ w' = xla_client_ fresh.
Proof.
  apply (@other_shapes_unimplemented types reliable computation_pb
           fresh); simpl; discriminate.
Defined.

Lemma materialize_unimplemented_type_witness :
  @MaterializeXLAValue types reliable holds_neither [] (pb_not_set, [])
  = (UnimplementedError
       "Can only materialize tensors and structures of tensors from XLA executor; attempted to materialize a value of type: 2",
     (pb_not_set, [])).
Proof.
  apply (@materialize_unimplemented_type types reliable holds_neither []
           (pb_not_set, [])).
  reflexivity.
Defined.

(** C7, as stated, fails: on the value that holds neither alternative the
    failure of [MaterializeXLAValue] is an unimplemented failure, not an
    internal one. *)
Lemma materialize_default_case_is_not_internal :
  type (@holds_neither types) = UNIMPLEMENTED /\
  @MaterializeXLAValue types reliable holds_neither [] (pb_not_set, [])
  = (Error kUnimplemented
       "Can only materialize tensors and structures of tensors from XLA executor; attempted to materialize a value of type: 2",
     (pb_not_set, [])) /\
  ~ (exists msg m,
       @MaterializeXLAValue types reliable holds_neither [] (pb_not_set, [])
       = (Error kInternal msg, m)).
Proof. repeat split. intros (msg & m & E). discriminate E. Qed.

Lemma constructed_values_are_tensor_or_struct_witness :
  Forall (fun n => type n = TENSOR \/ type n = STRUCT) (nodes two_tensors_value).
Proof.
  apply (@constructed_values_are_tensor_or_struct types reliable two_tensors_value).
  right. exists two_tensors, fresh, (@mkWorld types allocated 1).
  reflexivity.
Defined.

(** C5 fails on the code: the faulty service refuses a literal of four
    numbers with the text out of device memory; the failure of
    [EmbedTensorValue] is an invalid-argument failure whose message ends
    after the colon, without that text. The code appends the message of the
    conversion status, which is OK at that point, where the status of the
    transfer is meant. *)
Theorem transfer_failure_message_lacks_service_text :
  @TransferToServer types faulty [1; 2; 3; 4]%Z []
    = (Err kResourceExhausted "out of device memory", []) /\
  @EmbedTensorValue types faulty (tensor_pb 3 [1; 2; 3; 4]%Z) []
    = (Err kInvalidArgument "Failed to transfer XLA literal to local server. Message: ",
       []) /\
  contains "out of device memory"
    "Failed to transfer XLA literal to local server. Message: " = false.
Proof. repeat split. Qed.

Lemma GetXLAClient_failures_witness :
  (kInternal = kInternal /\
   ((exists c msg,
       PlatformWithName "Host" = Err c msg /\
       "Failed to construct XLA client. Message: no devices"%string
       = StrCat "Failed to find specified platform "
           (StrCat "Host"
              (StrCat " in MultiPlatformManager. You may be missing a build dependency to register the platform. Message: "
                      msg)) /\
       contains "Host" "Failed to construct XLA client. Message: no devices" = true /\
       contains msg "Failed to construct XLA client. Message: no devices" = true) \/
    (exists platform c msg,
       PlatformWithName "Host" = Ok platform /\
       GetOrCreateLocalClient platform = Err c msg /\
       "Failed to construct XLA client. Message: no devices"%string
       = StrCat "Failed to construct XLA client. Message: " msg /\
       contains msg "Failed to construct XLA client. Message: no devices" = true))) /\
  (kInternal = kInternal /\
   ((exists c msg,
       PlatformWithName "CUDA" = Err c msg /\
       "Failed to find specified platform CUDA in MultiPlatformManager. You may be missing a build dependency to register the platform. Message: platform not registered"%string
       = StrCat "Failed to find specified platform "
           (StrCat "CUDA"
              (StrCat " in MultiPlatformManager. You may be missing a build dependency to register the platform. Message: "
                      msg)) /\
       contains "CUDA"
         "Failed to find specified platform CUDA in MultiPlatformManager. You may be missing a build dependency to register the platform. Message: platform not registered"
       = true /\
       contains msg
         "Failed to find specified platform CUDA in MultiPlatformManager. You may be missing a build dependency to register the platform. Message: platform not registered"
       = true) \/
    (exists platform c msg,
       PlatformWithName "CUDA" = Ok platform /\
       GetOrCreateLocalClient platform = Err c msg /\
       "Failed to find specified platform CUDA in MultiPlatformManager. You may be missing a build dependency to register the platform. Message: platform not registered"%string
       = StrCat "Failed to construct XLA client. Message: " msg /\
       contains msg
         "Failed to find specified platform CUDA in MultiPlatformManager. You may be missing a build dependency to register the platform. Message: platform not registered"
       = true))).
Proof.
  split.
  - apply (GetXLAClient_failures PlatformWithName GetOrCreateLocalClient "Host").
    reflexivity.
  - apply (GetXLAClient_failures PlatformWithName GetOrCreateLocalClient "CUDA").
    reflexivity.
Defined.

(** C9, as stated, fails: the platform Host is found and its client cannot
    be constructed; the message of the failure, written without the name of
    the platform, carries the message of the construction, and here the name
    does not occur in it. *)
Lemma construction_failure_omits_platform_name :
  PlatformWithName "Host" = Ok tt /\
  GetOrCreateLocalClient tt = Err kUnavailable "no devices" /\
  GetXLAClient _ _ PlatformWithName GetOrCreateLocalClient "Host"
    = Err kInternal "Failed to construct XLA client. Message: no devices" /\
  contains "Host" "Failed to construct XLA client. Message: no devices" = false.
Proof. repeat split. Qed.

(** * More of the executor on the two small services *)

Import Samples.

Lemma creation_succeeds_only_on_well_formed_witness :
  @well_formed types reliable two_tensors.
Proof.
  apply (@creation_succeeds_only_on_well_formed types reliable
           two_tensors empty two_tensors_value allocated).
  reflexivity.
Defined.

Lemma created_value_mirrors_message_witness :
  outline two_tensors_value = blank two_tensors /\
  Forall2 (@leaf_of types reliable) (leaves two_tensors_value) (tensors_of two_tensors).
Proof.
  apply (@created_value_mirrors_message types reliable
           two_tensors empty two_tensors_value allocated).
  reflexivity.
Defined.

Lemma creation_transfers_each_tensor_once_witness :
  allocated = @transferred types reliable empty (tensors_of two_tensors) /\
  length (leaves two_tensors_value) = length (tensors_of two_tensors).
Proof.
  apply (@creation_transfers_each_tensor_once types reliable
           two_tensors empty two_tensors_value allocated).
  reflexivity.
Defined.

Lemma creation_failure_classes_witness :
  (kInvalidArgument = kUnimplemented /\
   "Failed to transfer XLA literal to local server. Message: "%string
   = "Not implemented yet"%string) \/
  kInvalidArgument = kInvalidArgument \/
  exists tensor, In tensor (tensors_of large_second) /\
    @DeserializeTensorValue types faulty (pb_tensor tensor)
    = Err kInvalidArgument "Failed to transfer XLA literal to local server. Message: ".
Proof.
  apply (@creation_failure_classes types faulty large_second empty
           kInvalidArgument
           "Failed to transfer XLA literal to local server. Message: "
           [[1; 2; 3]%Z]).
  reflexivity.
Defined.

Lemma creation_ignores_element_names_witness :
  @CreateValueAny types reliable two_tensors empty
  = @CreateValueAny types reliable renamed_two_tensors empty.
Proof.
  apply (@creation_ignores_element_names types reliable
           two_tensors renamed_two_tensors empty).
  reflexivity.
Defined.

Lemma creation_failure_surfaces_at_Materialize_witness :
  exists future,
    @CreateExecutorValue types reliable computation_pb fresh
      = (Ok future, @mkWorld types empty 1) /\
    @Materialize types reliable future two_tensors empty
      = (Error kUnimplemented "Not implemented yet", two_tensors).
Proof.
  apply (@creation_failure_surfaces_at_Materialize types reliable
           computation_pb fresh kUnimplemented "Not implemented yet" empty two_tensors).
  reflexivity.
Defined.

Lemma walk_stays_in_its_slot_witness :
  deref [1] (@MaterializeXLAValue types reliable two_tensors_value [0]
               (walked_two_tensors, [])).2.1
  = deref [1] walked_two_tensors /\
  exists ts,
    (@MaterializeXLAValue types reliable two_tensors_value [0]
       (walked_two_tensors, [])).2.2 = [] ++ ts /\
    Forall (fun task => exists below, value_pb task = [0] ++ below) ts.
Proof.
  apply (@walk_stays_in_its_slot types reliable two_tensors_value [0] [1]
           walked_two_tensors []).
  reflexivity.
Defined.

Lemma walk_registers_one_task_per_leaf_witness :
  exists ts, two_tasks = [] ++ ts /\
             map tensor_in_service ts = leaves two_tensors_value.
Proof.
  apply (@walk_registers_one_task_per_leaf types reliable two_tensors_value []
           pb_not_set walked_two_tensors [] two_tasks).
  reflexivity.
Defined.

Lemma Materialize_succeeds_iff_all_units_succeed_witness :
  (fst (@Materialize types faulty (Ok two_tensors_value) pb_not_set allocated) = OkStatus <->
   Forall (fun t => exists tensor, @transfer_back types faulty t allocated = Ok tensor)
     (leaves two_tensors_value)) /\
  snd (@Materialize types faulty (Ok two_tensors_value) pb_not_set allocated)
  = @filled types faulty allocated two_tensors_value.
Proof.
  apply (@Materialize_succeeds_iff_all_units_succeed types faulty
           two_tensors_value allocated).
  apply Constructed_span. repeat constructor.
Defined.

Lemma Materialize_appends_to_a_struct_witness :
  exists st,
    @Materialize types reliable (Ok two_tensors_value) (pb_struct kept) allocated
    = (st, pb_struct
             (kept ++ map (fun c => mkElement EmptyString
                                      (@filled types reliable allocated c))
                          [tensor_value 0 3; tensor_value 1 1])).
Proof.
  apply (@Materialize_appends_to_a_struct types reliable
           [tensor_value 0 3; tensor_value 1 1] kept allocated).
  repeat constructor.
Defined.

Lemma EmbedTensorValue_failure_kinds_witness :
  (@DeserializeTensorValue types faulty (tensor_pb 3 [1; 2; 3; 4]%Z)
   = Err kInvalidArgument "Failed to transfer XLA literal to local server. Message: "
   /\ empty = empty) \/
  (kInvalidArgument = kInvalidArgument /\
   ((exists t st literal,
       @DeserializeTensorValue types faulty (tensor_pb 3 [1; 2; 3; 4]%Z) = Ok t /\
       @HostTensorToBorrowingLiteral types faulty t = (st, literal) /\ ok st = false /\
       contains (error_message st)
         "Failed to transfer XLA literal to local server. Message: " = true /\
       empty = empty) \/
    (exists t literal c m,
       @DeserializeTensorValue types faulty (tensor_pb 3 [1; 2; 3; 4]%Z) = Ok t /\
       @HostTensorToBorrowingLiteral types faulty t = (OkStatus, literal) /\
       @TransferToServer types faulty literal empty = (Err c m, empty)))).
Proof.
  apply (@EmbedTensorValue_failure_kinds types faulty (tensor_pb 3 [1; 2; 3; 4]%Z)
           empty kInvalidArgument
           "Failed to transfer XLA literal to local server. Message: " empty).
  reflexivity.
Defined.

Lemma transfer_back_failure_kinds_witness :
  (kInternal = kInternal /\
   exists c m, @Transfer types faulty (global_data second_leaf) allocated = Err c m /\
     contains m
       "Error transferring tensor from XLA service to host. Message: device lost"
     = true) \/
  (kInternal = kInternal /\
   exists literal st tensor_out,
     @Transfer types faulty (global_data second_leaf) allocated = Ok literal /\
     @LiteralToHostTensor types faulty literal (dtype second_leaf) = (st, tensor_out) /\
     ok st = false /\
     contains (error_message st)
       "Error transferring tensor from XLA service to host. Message: device lost"
     = true) \/
  (exists literal tensor_out,
     @Transfer types faulty (global_data second_leaf) allocated = Ok literal /\
     @LiteralToHostTensor types faulty literal (dtype second_leaf)
       = (OkStatus, tensor_out) /\
     @SerializeTensorValue types faulty tensor_out
       = Err kInternal
           "Error transferring tensor from XLA service to host. Message: device lost").
Proof.
  apply (@transfer_back_failure_kinds types faulty second_leaf allocated kInternal
           "Error transferring tensor from XLA service to host. Message: device lost").
  reflexivity.
Defined.
